(** * sshd-rando: the ASM patch handler (src/patches/asmpatchhandler.py)

    A shallow embedding of [ASMPatchHandler]: the LZ4 codec wrappers, the
    diff applier ([write_patch]), the container patcher ([patch_asm]) and
    the start-flags assembler ([patch_startflags], [_get_flags]).

    Python objects are modelled by what the handler does with them:
    - [bytes] and the contents of a [BytesIO] are lists of 8-bit integers
      (each a [Z] in [0, 256));
    - dictionaries whose iteration order matters (the diff files, the
      start-flags sections, the [Counter] of start counts) are association
      lists in insertion order; the static lookup tables are [gmap]s;
    - exceptions, the files written and the queries sent to the condition
      handler are threaded through the state-and-error monad [M]. *)

From stdpp Require Import gmap strings list list_numbers.
From Stdlib Require Import ZArith Lia.

Open Scope Z_scope.

(** ** Python run-time: exceptions, effects *)

Inductive exn : Set :=
  | KeyError | IndexError | TypeError | ValueError
  | StructError      (* struct.error *)
  | LZ4BlockError    (* lz4.block.LZ4BlockError *)
  | BoundsError      (* an out-of-bounds write *)
  | AssertionError.

Inductive result (A : Type) : Type :=
  | Ok (a : A)
  | Raise (e : exn).
Arguments Ok {A} a.
Arguments Raise {A} e.

(** What a run leaves behind: the files it wrote (newest first) and the
    condition names it sent to [evaluate_onlyif] (oldest first). *)
Inductive content : Type :=
  | FBytes (raw : list Z)                 (* write_bytes_create_dirs *)
  | FYaml (doc : list (Z * list Z)).      (* yaml_write of {offset: [bytes]} *)

Record sys : Type := Sys {
  files : list (string * content);
  queried : list string
}.

Definition M (A : Type) : Type := sys -> sys * result A.

Definition ret {A} (a : A) : M A := fun s => (s, Ok a).
Definition raise {A} (e : exn) : M A := fun s => (s, Raise e).
Definition bind {A B} (m : M A) (k : A -> M B) : M B :=
  fun s => match m s with
           | (s', Ok a) => k a s'
           | (s', Raise e) => (s', Raise e)
           end.

Declare Scope py_scope.
Delimit Scope py_scope with py.
Notation "x <- m ; k" := (bind m (fun x => k))
  (at level 20, m at level 100, k at level 200, only parsing) : py_scope.
Notation "' p <- m ; k" := (bind m (fun x => match x with p => k end))
  (at level 20, p pattern, m at level 100, k at level 200, only parsing) : py_scope.
Open Scope py_scope.

(** [for x in xs: acc = body(x, acc)], stopping at the first exception. *)
Fixpoint for_ {A S} (xs : list A) (body : A -> S -> M S) (acc : S) : M S :=
  match xs with
  | [] => ret acc
  | x :: xs' => acc' <- body x acc; for_ xs' body acc'
  end.

Definition len {A} (l : list A) : Z := Z.of_nat (length l).

(** ** struct.pack / struct.unpack, little endian *)

Definition in_range (lo hi v : Z) : bool := (lo <=? v) && (v <? hi).

(** Byte [i] of [v], the least significant being byte 0. *)
Definition byte_of (v : Z) (i : Z) : Z := (v / 256 ^ i) mod 256.

(** struct.pack("<H", v) *)
Definition pack_H (v : Z) : M (list Z) :=
  if in_range 0 65536 v then ret [byte_of v 0; byte_of v 1]
  else raise StructError.

(** struct.pack("<BB", a, b) *)
Definition pack_BB (a b : Z) : M (list Z) :=
  if in_range 0 256 a && in_range 0 256 b then ret [a; b]
  else raise StructError.

(** struct.pack("<HH", a, b) *)
Definition pack_HH (a b : Z) : M (list Z) :=
  if in_range 0 65536 a && in_range 0 65536 b
  then ret [byte_of a 0; byte_of a 1; byte_of b 0; byte_of b 1]
  else raise StructError.

(** struct.pack("<I", v) *)
Definition pack_I (v : Z) : M (list Z) :=
  if in_range 0 4294967296 v
  then ret [byte_of v 0; byte_of v 1; byte_of v 2; byte_of v 3]
  else raise StructError.

(** struct.pack("<B", v) *)
Definition pack_B (v : Z) : M (list Z) :=
  if in_range 0 256 v then ret [v] else raise StructError.

(** struct.unpack("<I", raw)[0] for a 4-byte [raw]. *)
Definition unpack_I (raw : list Z) : Z :=
  match raw with
  | [b0; b1; b2; b3] => b0 + 256 * (b1 + 256 * (b2 + 256 * b3))
  | _ => 0
  end.

(** bytes(data) for a list of ints: ValueError outside range(256). *)
Definition bytes_of (data : list Z) : M (list Z) :=
  if forallb (in_range 0 256) data then ret data else raise ValueError.

(** ** io.BytesIO *)

Record BytesIO : Type := MkBytesIO {
  getvalue : list Z;
  tell : nat
}.

(** BytesIO(initial): the position starts at 0. *)
Definition BytesIO_new (initial : list Z) : BytesIO :=
  {| getvalue := initial; tell := 0 |}.

(** f.seek(pos): a negative position is a ValueError, any other is accepted. *)
Definition seek (pos : Z) (f : BytesIO) : M BytesIO :=
  if pos <? 0 then raise ValueError
  else ret {| getvalue := getvalue f; tell := Z.to_nat pos |}.

(** f.read(n): at most [n] bytes from the position; everything left when
    [n] is negative (the default of read()). *)
Definition read (n : Z) (f : BytesIO) : list Z * BytesIO :=
  let rest := drop (tell f) (getvalue f) in
  let out := if n <? 0 then rest else take (Z.to_nat n) rest in
  (out, {| getvalue := getvalue f; tell := (tell f + length out)%nat |}).

(** The [n] bytes of [buf] from index [off] on. *)
Definition slice (buf : list Z) (off n : nat) : list Z := take n (drop off buf).

(** [raw] laid over [buf] from index [off] on. *)
Definition overwrite (buf : list Z) (off : nat) (raw : list Z) : list Z :=
  take off buf ++ raw ++ drop (off + length raw) buf.

(** f.write(raw): overwrites from the position on, zero-fills a gap when
    the position is past the end, and advances the position. *)
Definition write (raw : list Z) (f : BytesIO) : BytesIO :=
  match raw with
  | [] => f
  | _ =>
      let padded := getvalue f ++ replicate (tell f - length (getvalue f)) 0 in
      {| getvalue := overwrite padded (tell f) raw;
         tell := (tell f + length raw)%nat |}
  end.

(** ** sslib.fs_helpers *)

(** Modelled from the spec: [write_bytes] of sslib/fs_helpers.py is not
    part of the sources at hand, and is taken as a parameter.  The spec
    has it overwrite [len(raw)] bytes at [offset] of the chosen buffer. *)
Class FsHelpers : Type := {
  write_bytes : BytesIO -> Z -> list Z -> M BytesIO
}.

(** Modelled from the spec: what "overwrite [len(raw)] bytes at [offset]"
    means for any [write_bytes].  It has no effect but on the buffer;
    inside the bounds of the buffer it returns the buffer with [raw] laid
    over it; and whenever it returns, the offset is not negative, the
    buffer has not shrunk, [raw] is found at [offset], and every range of
    the old buffer that [raw] does not touch is as it was. *)
Class FsLawful (fs : FsHelpers) : Prop := {
  write_bytes_pure : forall data offset raw s s' r,
    write_bytes data offset raw s = (s', r) -> s' = s;
  write_bytes_in_bounds : forall data offset raw s,
    0 <= offset -> offset + len raw <= len (getvalue data) ->
    exists data', write_bytes data offset raw s = (s, Ok data') /\
                  getvalue data' = overwrite (getvalue data) (Z.to_nat offset) raw;
  write_bytes_written : forall data data' offset raw s s',
    write_bytes data offset raw s = (s', Ok data') ->
    0 <= offset /\
    (length (getvalue data) <= length (getvalue data'))%nat /\
    slice (getvalue data') (Z.to_nat offset) (length raw) = raw /\
    forall off n : nat,
      (off + n <= length (getvalue data))%nat ->
      (off + n <= Z.to_nat offset \/ Z.to_nat offset + length raw <= off)%nat ->
      slice (getvalue data') off n = slice (getvalue data) off n
}.

(** Modelled from the spec: the buffers are fixed-size images, a write
    that reaches past the end of the buffer is an out-of-bounds write and
    fails; the buffer is never grown. *)
Class FsBounded (fs : FsHelpers) : Prop :=
  write_bytes_bounded : forall data offset raw s,
    len (getvalue data) < offset + len raw ->
    exists e, write_bytes data offset raw s = (s, Raise e).

(** Two helpers that fit the description: a seek followed by a write,
    which on a [BytesIO] extends the buffer when the write reaches past
    its end, and the same behind the bounds check of the spec. *)
Definition seek_write_fs : FsHelpers :=
  {| write_bytes data offset raw := f <- seek offset data; ret (write raw f) |}.

Definition checked_fs : FsHelpers :=
  {| write_bytes data offset raw :=
       if len (getvalue data) <? offset + len raw then raise BoundsError
       else f <- seek offset data; ret (write raw f) |}.

(** Modelled from the spec: [write_u32] of sslib/fs_helpers.py, called
    with [is_little_endian=True]: four bytes, least significant first. *)
Definition write_u32 `{FsHelpers} (data : BytesIO) (offset : Z) (value : Z) : M BytesIO :=
  raw <- pack_I value; write_bytes data offset raw.

(** Modelled from the spec: [write_u8] of sslib/fs_helpers.py. *)
Definition write_u8 `{FsHelpers} (data : BytesIO) (offset : Z) (value : Z) : M BytesIO :=
  raw <- pack_B value; write_bytes data offset raw.

(** Modelled from the spec: [write_bytes_create_dirs] of sslib/utils.py
    writes the whole image to the output path. *)
Definition write_bytes_create_dirs (path : string) (raw : list Z) : M unit :=
  fun s => ({| files := (path, FBytes raw) :: files s; queried := queried s |}, Ok tt).

(** Modelled from the spec: [yaml_write] of sslib/yaml.py persists the
    mapping as a diff source file. *)
Definition yaml_write (path : string) (doc : list (Z * list Z)) : M unit :=
  fun s => ({| files := (path, FYaml doc) :: files s; queried := queried s |}, Ok tt).

(** ** patches.conditionalpatchhandler *)

(** The condition gate is consumed only: [evaluate_onlyif] of the handler
    answers a condition name with a boolean or raises. *)
Record ConditionalPatchHandler : Type := {
  gate : string -> result bool
}.

Definition evaluate_onlyif (h : ConditionalPatchHandler) (cond : string) : M bool :=
  fun s => ({| files := files s; queried := queried s ++ [cond] |}, gate h cond).

(** ** lz4.block *)

(** The LZ4 library under the Python binding: the block compressor
    (LZ4_compress_default, [None] when the input is larger than
    LZ4_MAX_INPUT_SIZE), the block decompressor (LZ4_decompress_safe, given
    the capacity of the destination) and the library's contract, that a
    block decodes to the input it was made from when the destination has
    exactly the input's size. *)
Definition LZ4_MAX_INPUT_SIZE : Z := 2113929216.   (* 0x7E000000 *)

Class Lz4Block : Type := {
  LZ4_compress_default : list Z -> option (list Z);
  LZ4_decompress_safe : list Z -> Z -> option (list Z)
}.

Class Lz4Lawful (codec : Lz4Block) : Prop :=
  LZ4_block_round_trip : forall x : list Z,
    len x <= LZ4_MAX_INPUT_SIZE ->
    exists blk, LZ4_compress_default x = Some blk /\
                LZ4_decompress_safe blk (len x) = Some x.

(** lz4.block.compress(source) with its defaults (store_size=True): the
    block, preceded by the size of the source as a little-endian u32. *)
Definition lz4_block_compress `{Lz4Block} (source : list Z) : M (list Z) :=
  match LZ4_compress_default source with
  | Some blk => hdr <- pack_I (len source); ret (hdr ++ blk)
  | None => raise LZ4BlockError
  end.

(** lz4.block.decompress(source, uncompressed_size): with a size that is
    not negative the whole source is the block and the size is the capacity
    of the destination; otherwise the size is read from the first four
    bytes of the source, and the block must decode to exactly that size. *)
Definition lz4_block_decompress `{Lz4Block} (source : list Z) (uncompressed_size : Z)
  : M (list Z) :=
  if 0 <=? uncompressed_size then
    match LZ4_decompress_safe source uncompressed_size with
    | Some out => ret out
    | None => raise LZ4BlockError
    end
  else if len source <? 4 then raise ValueError
  else
    let dest_size := unpack_I (take 4 source) in
    match LZ4_decompress_safe (drop 4 source) dest_size with
    | Some out => if len out =? dest_size then ret out else raise LZ4BlockError
    | None => raise LZ4BlockError
    end.

(** ** patches.asmpatchhelper, constants.asmconstants, constants.itemconstants *)

(** Modelled from the spec: [SegmentHeader] of patches/asmpatchhelper.py.
    A fixed-size record of u32 fields: the file offset first, the
    decompressed size, and the trailing field [other].  The handler writes
    the file offset at record offset 0 and [other] at record offset 0xC,
    which makes the record 0x10 bytes; the word at 0x4 is not read by the
    handler. *)
Record SegmentHeader : Type := {
  get_file_offset : Z;
  get_memory_offset : Z;
  get_decompressed_size : Z;
  get_other : Z
}.

Definition SEGMENT_HEADER_SIZE : Z := 16.

Definition bytes_to_segment_header (raw : list Z) : M SegmentHeader :=
  if len raw =? SEGMENT_HEADER_SIZE then
    ret {| get_file_offset := unpack_I (slice raw 0 4);
           get_memory_offset := unpack_I (slice raw 4 4);
           get_decompressed_size := unpack_I (slice raw 8 4);
           get_other := unpack_I (slice raw 12 4) |}
  else raise StructError.

(** [NsoOffsets]: the boundaries of the three segments in the address
    space of the diffs. *)
Record NsoOffsets : Type := {
  get_text_offset : Z;
  get_rodata_offset : Z;
  get_data_offset : Z
}.

(** The constants of constants/asmconstants.py that the handler uses. *)
Class AsmConstants : Type := {
  COMPRESSED_SEGMENT_NSO_OFFSET : Z;
  NSO_FLAGS_OFFSET : Z;
  SUBSDK_STARTFLAG_OFFSET : Z;
  SUBSDK_START_COUNTS_OFFSET : Z;
  MAX_STARTFLAGS : Z;
  SCENE_NAME_TO_SCENE_INDEX : gmap string Z
}.

(** A value of the item tables: an int, a list or a tuple of ints;
    [PyFalse] is the default that [dict.get(name, False)] returns. *)
Inductive pyval : Type :=
  | PyFalse
  | PyInt (z : Z)
  | PyList (l : list Z)
  | PyTuple (l : list Z).

(** The tables of constants/itemconstants.py. *)
Class ItemConstants : Type := {
  ITEM_ITEMFLAGS : gmap string pyval;
  ITEM_STORYFLAGS : gmap string pyval;
  ITEM_COUNTS : gmap string pyval
}.

(** Truth value of a table value in [if x := ...]. *)
Definition truthy (v : pyval) : bool :=
  match v with
  | PyFalse => false
  | PyInt z => negb (z =? 0)
  | PyList l | PyTuple l => negb (length l =? 0)%nat
  end.

(** d.get(key, False) *)
Definition dict_get_False (d : gmap string pyval) (key : string) : pyval :=
  default PyFalse (d !! key).

(** d[key], KeyError when the key is missing. *)
Definition dict_index (d : gmap string Z) (key : string) : M Z :=
  match d !! key with
  | Some v => ret v
  | None => raise KeyError
  end.

(** An insertion-ordered dict with integer keys: d.get(k), d[k] = v. *)
Fixpoint odict_get {V} (k : Z) (d : list (Z * V)) : option V :=
  match d with
  | [] => None
  | (k', v) :: d' => if k =? k' then Some v else odict_get k d'
  end.

Fixpoint odict_set {V} (k : Z) (v : V) (d : list (Z * V)) : list (Z * V) :=
  match d with
  | [] => [(k, v)]
  | (k', v') :: d' => if k =? k' then (k', v) :: d' else (k', v') :: odict_set k v d'
  end.

(** d1.update(d2) *)
Definition odict_update {V} (d1 d2 : list (Z * V)) : list (Z * V) :=
  fold_left (fun d kv => odict_set kv.1 kv.2 d) d2 d1.

(** Counter: c[k] += v, a missing key counts as 0. *)
Definition counter_add (k v : Z) (c : list (Z * Z)) : list (Z * Z) :=
  odict_set k (default 0 (odict_get k c) + v) c.

(** ** ASMPatchHandler *)

(** A key of a diff mapping: an integer address or a condition name. *)
Inductive key : Type :=
  | KInt (z : Z)
  | KStr (s : string).

(** [k < n] and [k - n] on a key: a TypeError when the key is no int. *)
Definition key_lt (k : key) (n : Z) : M bool :=
  match k with
  | KInt z => ret (z <? n)
  | KStr _ => raise TypeError
  end.

Definition key_sub (k : key) (n : Z) : M Z :=
  match k with
  | KInt z => ret (z - n)
  | KStr _ => raise TypeError
  end.

(** An item of a parsed diff file: an integer address with its bytes, or a
    condition name with the nested mapping it guards. *)
Inductive diff_entry : Type :=
  | Patch (relative_offset : Z) (data : list Z)
  | OnlyIf (cond : string) (data : list (key * list Z)).

(** An entry of a start-flags section: a flag, or a one-key mapping from a
    condition name to the flags it guards. *)
Inductive flag_entry : Type :=
  | Flag (flag : Z)
  | OnlyIfFlags (condition : string) (flags : list Z).

(** The start-flags file (STARTFLAGS_FILE_PATH) once loaded. *)
Record StartFlags : Type := {
  Storyflags : list flag_entry;
  Sceneflags : list (string * list flag_entry);
  Itemflags : list flag_entry;
  Dungeonflags : list (string * list flag_entry)
}.

Definition segments : Type := BytesIO * BytesIO * BytesIO.
Definition headers : Type := SegmentHeader * SegmentHeader * SegmentHeader.

Section Handler.
Context {lz4 : Lz4Block} {fs : FsHelpers} {asm : AsmConstants}
  {items : ItemConstants}.

(** compress(data)[4:] *)
Definition compress (data : list Z) : M (list Z) :=
  c <- lz4_block_compress data; ret (drop 4 c).

Definition decompress (data : list Z) (size : Z) : M (list Z) :=
  lz4_block_decompress data size.

Definition get_segments (nso : BytesIO) : M (headers * BytesIO) :=
  let size := SEGMENT_HEADER_SIZE in
  nso <- seek size nso;
  let '(raw, nso) := read size nso in
  text_header <- bytes_to_segment_header raw;
  let '(raw, nso) := read size nso in
  rodata_header <- bytes_to_segment_header raw;
  let '(raw, nso) := read size nso in
  data_header <- bytes_to_segment_header raw;
  ret ((text_header, rodata_header, data_header), nso).

Definition write_patch (relative_offset : key) (offsets : NsoOffsets)
    (text_segment rodata_segment data_segment : BytesIO) (data : list Z)
  : M segments :=
  is_text <- key_lt relative_offset (get_rodata_offset offsets);
  if is_text then
    file_offset <- key_sub relative_offset (get_text_offset offsets);
    raw <- bytes_of data;
    text_segment <- write_bytes text_segment file_offset raw;
    ret (text_segment, rodata_segment, data_segment)
  else
    is_rodata <- key_lt relative_offset (get_data_offset offsets);
    if is_rodata then
      file_offset <- key_sub relative_offset (get_rodata_offset offsets);
      raw <- bytes_of data;
      rodata_segment <- write_bytes rodata_segment file_offset raw;
      ret (text_segment, rodata_segment, data_segment)
    else
      file_offset <- key_sub relative_offset (get_data_offset offsets);
      raw <- bytes_of data;
      data_segment <- write_bytes data_segment file_offset raw;
      ret (text_segment, rodata_segment, data_segment).

(** One turn of the loop over [binary_diffs.items()] (lines 92-112). *)
Definition apply_entry (onlyif_handler : ConditionalPatchHandler)
    (offsets : NsoOffsets) (entry : diff_entry) (segs : segments) : M segments :=
  match entry with
  | OnlyIf relative_offset data =>
      active <- evaluate_onlyif onlyif_handler relative_offset;
      if active then
        for_ data (fun '(relative_offset, data2) '(t, r, d) =>
                     write_patch relative_offset offsets t r d data2) segs
      else ret segs
  | Patch relative_offset data =>
      let '(t, r, d) := segs in
      write_patch (KInt relative_offset) offsets t r d data
  end.

(** The loop over the diff files (lines 88-112). *)
Definition apply_diffs (onlyif_handler : ConditionalPatchHandler)
    (offsets : NsoOffsets) (diff_files : list (list diff_entry))
    (segs : segments) : M segments :=
  for_ diff_files (fun binary_diffs segs =>
    for_ binary_diffs (apply_entry onlyif_handler offsets) segs) segs.

(** Update of the NSO header (lines 124-165). *)
Definition relocate_headers (nso : BytesIO) (hdrs : headers)
    (new_text_size_diff new_rodata_size_diff new_data_size_diff : Z)
  : M (headers * BytesIO) :=
  let '(text_header, rodata_header, data_header) := hdrs in
  '((text_header, rodata_header, data_header), nso) <-
    (if 0 <? new_text_size_diff then
       nso <- write_u32 nso (SEGMENT_HEADER_SIZE * 2)
                (get_file_offset rodata_header + new_text_size_diff);
       nso <- write_u32 nso (SEGMENT_HEADER_SIZE * 3)
                (get_file_offset data_header + new_text_size_diff);
       get_segments nso
     else ret ((text_header, rodata_header, data_header), nso));
  nso <- (if 0 <? new_rodata_size_diff then
            write_u32 nso (SEGMENT_HEADER_SIZE * 3)
              (get_file_offset data_header + new_rodata_size_diff)
          else ret nso);
  nso <- (if 0 <? new_data_size_diff then
            write_u32 nso (SEGMENT_HEADER_SIZE * 3 + 12)
              (get_other data_header + new_data_size_diff)
          else ret nso);
  get_segments nso.

(** Writing the segments, the compressed sizes, the flags and the output
    file (lines 167-195). *)
Definition write_image (nso : BytesIO) (hdrs : headers)
    (new_compressed_text new_compressed_rodata new_compressed_data : list Z)
    (output_path : string) : M unit :=
  let '(text_header, rodata_header, data_header) := hdrs in
  nso <- write_bytes nso (get_file_offset text_header) new_compressed_text;
  nso <- write_bytes nso (get_file_offset rodata_header) new_compressed_rodata;
  nso <- write_bytes nso (get_file_offset data_header) new_compressed_data;
  nso <- write_u32 nso COMPRESSED_SEGMENT_NSO_OFFSET (len new_compressed_text);
  nso <- write_u32 nso (COMPRESSED_SEGMENT_NSO_OFFSET + 4) (len new_compressed_rodata);
  nso <- write_u32 nso (COMPRESSED_SEGMENT_NSO_OFFSET + 8) (len new_compressed_data);
  nso <- write_u8 nso NSO_FLAGS_OFFSET 7;
  write_bytes_create_dirs output_path (getvalue nso).

(** Reading the headers and the three segments (lines 64-86):
    [nso_file] is the content of [nso_path]. *)
Definition load_segments (nso_file : list Z)
  : M (BytesIO * headers * (list Z * list Z * list Z) * segments) :=
  let nso := BytesIO_new nso_file in
  '((text_header, rodata_header, data_header), nso) <- get_segments nso;
  nso <- seek (get_file_offset text_header) nso;
  let '(compressed_text, nso) :=
    read (get_file_offset rodata_header - get_file_offset text_header) nso in
  let '(compressed_rodata, nso) :=
    read (get_file_offset data_header - get_file_offset rodata_header) nso in
  let '(compressed_data, nso) := read (-1) nso in
  text <- decompress compressed_text (get_decompressed_size text_header);
  rodata <- decompress compressed_rodata (get_decompressed_size rodata_header);
  data <- decompress compressed_data (get_decompressed_size data_header);
  ret (nso, (text_header, rodata_header, data_header),
       (compressed_text, compressed_rodata, compressed_data),
       (BytesIO_new text, BytesIO_new rodata, BytesIO_new data)).

(** Compressing the patched segments (lines 116-118). *)
Definition recompress (segs : segments) : M (list Z * list Z * list Z) :=
  let '(text_segment, rodata_segment, data_segment) := segs in
  new_compressed_text <- compress (getvalue text_segment);
  new_compressed_rodata <- compress (getvalue rodata_segment);
  new_compressed_data <- compress (getvalue data_segment);
  ret (new_compressed_text, new_compressed_rodata, new_compressed_data).

(** [patch_asm]: [diff_files] are the parsed diff files of
    [asm_diffs_path] followed by those of [extra_diffs_path]. *)
Definition patch_asm (onlyif_handler : ConditionalPatchHandler)
    (nso_file : list Z) (diff_files : list (list diff_entry))
    (output_path : string) (offsets : NsoOffsets) : M unit :=
  '(nso, hdrs, (compressed_text, compressed_rodata, compressed_data), segs) <-
    load_segments nso_file;
  segs <- apply_diffs onlyif_handler offsets diff_files segs;
  '(new_compressed_text, new_compressed_rodata, new_compressed_data) <-
    recompress segs;
  let new_text_size_diff := len new_compressed_text - len compressed_text in
  let new_rodata_size_diff := len new_compressed_rodata - len compressed_rodata in
  let new_data_size_diff := len new_compressed_data - len compressed_data in
  '(hdrs, nso) <- relocate_headers nso hdrs
                    new_text_size_diff new_rodata_size_diff new_data_size_diff;
  write_image nso hdrs new_compressed_text new_compressed_rodata
    new_compressed_data output_path.

(** [_get_flags]: the flags of a section, those under a condition only
    when the condition holds. *)
Definition _get_flags (startflag_section : list flag_entry)
    (onlyif_handler : ConditionalPatchHandler) : M (list Z) :=
  for_ startflag_section (fun flag flags =>
    match flag with
    | OnlyIfFlags condition guarded =>
        active <- evaluate_onlyif onlyif_handler condition;
        if active then
          for_ guarded (fun onlyif_flag flags => ret (flags ++ [onlyif_flag])) flags
        else ret flags
    | Flag flag => ret (flags ++ [flag])
    end) [].

(** The body of [if flag_data := TABLE.get(item_name, False)] for the
    item-flag and story-flag tables (lines 257-265 and 267-275). *)
Definition add_flags (flag_data : pyval) (count : Z) (flags : list flag_entry)
  : M (list flag_entry) :=
  if truthy flag_data then
    match flag_data with
    | PyList l =>
        for_ (seqZ 0 count) (fun item_count flags =>
          match l !! Z.to_nat item_count with
          | Some flag => ret (flags ++ [Flag flag])
          | None => raise IndexError
          end) flags
    | PyTuple l => for_ l (fun flag flags => ret (flags ++ [Flag flag])) flags
    | PyInt flag => ret (flags ++ [Flag flag])
    | PyFalse => ret flags   (* not reached: False is not truthy *)
    end
  else ret flags.

(** [counter, amount, maximum = start_count_data] *)
Definition unpack3 (v : pyval) : M (Z * Z * Z) :=
  match v with
  | PyTuple [a; b; c] | PyList [a; b; c] => ret (a, b, c)
  | PyTuple _ | PyList _ => raise ValueError
  | PyInt _ | PyFalse => raise TypeError
  end.

(** The body of [if start_count_data := ITEM_COUNTS.get(item_name, False)]
    (lines 277-280). *)
Definition add_start_count (start_count_data : pyval) (count : Z)
    (start_counts : list (Z * Z)) : M (list (Z * Z)) :=
  if truthy start_count_data then
    '(counter, amount, maximum) <- unpack3 start_count_data;
    let final_count := Z.min maximum count in
    ret (counter_add counter (amount * final_count) start_counts)
  else ret start_counts.

(** The loop over the starting item pool (lines 254-280). *)
Definition collect_items (starting_item_pool : list (string * Z))
    (storyflags itemflags : list flag_entry)
  : M (list flag_entry * list flag_entry * list (Z * Z)) :=
  for_ starting_item_pool
    (fun '(item_name, count) '(storyflags, itemflags, start_counts) =>
       itemflags <- add_flags (dict_get_False ITEM_ITEMFLAGS item_name) count itemflags;
       storyflags <- add_flags (dict_get_False ITEM_STORYFLAGS item_name) count storyflags;
       start_counts <- add_start_count (dict_get_False ITEM_COUNTS item_name) count start_counts;
       ret (storyflags, itemflags, start_counts))
    (storyflags, itemflags, []).

(** A section of u16 flags (lines 286-287 and 301-302). *)
Definition write_flags (flags : list flag_entry)
    (onlyif_handler : ConditionalPatchHandler) (out : BytesIO) : M BytesIO :=
  flags <- _get_flags flags onlyif_handler;
  for_ flags (fun flag out => raw <- pack_H flag; ret (write raw out)) out.

(** A section of (scene index, flag) pairs (lines 292-296 and 307-311). *)
Definition write_scene_flags (sceneflags : list (string * list flag_entry))
    (onlyif_handler : ConditionalPatchHandler) (out : BytesIO) : M BytesIO :=
  for_ sceneflags (fun '(scene, section) out =>
    flags <- _get_flags section onlyif_handler;
    for_ flags (fun flag out =>
      index <- dict_index SCENE_NAME_TO_SCENE_INDEX scene;
      raw <- pack_BB index flag;
      ret (write raw out)) out) out.

(** The start-flags blob (lines 282-313). *)
Definition serialize_startflags (storyflags : list flag_entry)
    (sceneflags : list (string * list flag_entry)) (itemflags : list flag_entry)
    (dungeonflags : list (string * list flag_entry))
    (onlyif_handler : ConditionalPatchHandler) : M BytesIO :=
  let startflags_data := BytesIO_new [] in
  startflags_data <- write_flags storyflags onlyif_handler startflags_data;
  let startflags_data := write [255; 255] startflags_data in
  startflags_data <- write_scene_flags sceneflags onlyif_handler startflags_data;
  let startflags_data := write [255; 255] startflags_data in
  startflags_data <- write_flags itemflags onlyif_handler startflags_data;
  let startflags_data := write [255; 255] startflags_data in
  startflags_data <- write_scene_flags dungeonflags onlyif_handler startflags_data;
  let startflags_data := write [255; 255] startflags_data in
  ret startflags_data.

(** The start-counts blob (lines 315-321). *)
Definition serialize_start_counts (start_counts : list (Z * Z)) : M BytesIO :=
  let start_counts_data := BytesIO_new [] in
  start_counts_data <-
    for_ start_counts (fun '(counter, amount) out =>
      raw <- pack_HH counter amount; ret (write raw out)) start_counts_data;
  let start_counts_data := write [255; 255; 255; 255] start_counts_data in
  ret start_counts_data.

(** [assert cond] *)
Definition assert (cond : bool) : M unit :=
  if cond then ret tt else raise AssertionError.

Definition patch_startflags (output_path : string) (startflags : StartFlags)
    (starting_item_pool : list (string * Z))
    (onlyif_handler : ConditionalPatchHandler) : M unit :=
  let storyflags := Storyflags startflags in
  let sceneflags := Sceneflags startflags in
  let itemflags := Itemflags startflags in
  let dungeonflags := Dungeonflags startflags in
  '(storyflags, itemflags, start_counts) <-
    collect_items starting_item_pool storyflags itemflags;
  startflags_data <-
    serialize_startflags storyflags sceneflags itemflags dungeonflags onlyif_handler;
  start_counts_data <- serialize_start_counts start_counts;
  let startflags_data_bytes := getvalue startflags_data in
  let startflags_data_dict := [(SUBSDK_STARTFLAG_OFFSET, startflags_data_bytes)] in
  let start_counts_data_bytes := getvalue start_counts_data in
  let start_counts_data_dict := [(SUBSDK_START_COUNTS_OFFSET, start_counts_data_bytes)] in
  let startflags_data_dict := odict_update startflags_data_dict start_counts_data_dict in
  _ <- yaml_write output_path startflags_data_dict;
  assert (len startflags_data_bytes <? MAX_STARTFLAGS).

End Handler.

(** ** A codec of the LZ4 block format

    A decoder of the block format (sequences of a token, literals and a
    match copied from the output) and the compressor that stores its input
    as one run of literals. *)
Module Lz4Ref.

(** The bytes that extend a length of 15: 255s, closed by a smaller byte. *)
Fixpoint read_length (src : list Z) (acc : Z) : option (Z * list Z) :=
  match src with
  | [] => None
  | b :: src' =>
      if b =? 255 then read_length src' (acc + 255) else Some (acc + b, src')
  end.

(** Copy [n] bytes from [offset] bytes back, one at a time. *)
Fixpoint copy_match (n offset : nat) (out : list Z) : option (list Z) :=
  match n with
  | O => Some out
  | S n' =>
      match out !! (length out - offset)%nat with
      | Some b => copy_match n' offset (out ++ [b])
      | None => None
      end
  end.

Definition field_length (nibble : Z) (src : list Z) : option (Z * list Z) :=
  if nibble =? 15 then read_length src 15 else Some (nibble, src).

Fixpoint decode (fuel : nat) (src out : list Z) (capacity : Z) : option (list Z) :=
  match fuel, src with
  | S fuel', token :: src =>
      '(literals, src) ← field_length (token / 16) src;
      if len src <? literals then None else
      let out := out ++ take (Z.to_nat literals) src in
      if capacity <? len out then None else
      match drop (Z.to_nat literals) src with
      | [] => Some out
      | lo :: hi :: src =>
          let offset := lo + 256 * hi in
          if (offset <=? 0) || (len out <? offset) then None else
          '(matched, src) ← field_length (token mod 16) src;
          if capacity <? len out + matched + 4 then None else
          out ← copy_match (Z.to_nat (matched + 4)) (Z.to_nat offset) out;
          decode fuel' src out capacity
      | _ => None
      end
  | _, _ => None
  end.

Definition decompress_safe (src : list Z) (capacity : Z) : option (list Z) :=
  decode (S (length src)) src [] capacity.

Definition length_bytes (n : Z) : list Z :=
  replicate (Z.to_nat (n / 255)) 255 ++ [n mod 255].

Definition compress_literals (x : list Z) : option (list Z) :=
  let n := len x in
  if LZ4_MAX_INPUT_SIZE <? n then None
  else if n <? 15 then Some (n * 16 :: x)
  else Some (240 :: length_bytes (n - 15) ++ x).

End Lz4Ref.

(** The literal-only compressor with the reference decoder. *)
Definition literal_lz4 : Lz4Block := {|
  LZ4_compress_default := Lz4Ref.compress_literals;
  LZ4_decompress_safe := Lz4Ref.decompress_safe
|}.

(** ** Notions used in the statements *)

(** [new] is [old] with the [len payload] bytes from [off] on replaced by
    [payload]: same length, the payload inside the range, the previous
    values outside. *)
Definition overwritten (old new : list Z) (off : Z) (payload : list Z) : Prop :=
  length new = length old /\
  forall i : nat,
    new !! i = if decide (off <= Z.of_nat i < off + len payload)
               then payload !! Z.to_nat (Z.of_nat i - off)
               else old !! i.

(** [m] never changes the observation [f] of the state, whether it returns
    or raises. *)
Definition preserves {X A} (f : sys -> X) (m : M A) : Prop :=
  forall s s' r, m s = (s', r) -> f s' = f s.

(** The write of [payload] at the address [a] would reach past the end of
    the segment that [a] falls in. *)
Definition past_end (offsets : NsoOffsets) (segs : segments) (a : Z)
    (payload : list Z) : Prop :=
  let '(t, r, d) := segs in
  if a <? get_rodata_offset offsets then
    len (getvalue t) < a - get_text_offset offsets + len payload
  else if a <? get_data_offset offsets then
    len (getvalue r) < a - get_rodata_offset offsets + len payload
  else len (getvalue d) < a - get_data_offset offsets + len payload.

(** The run applies [payload] at the address [a] on behalf of [entry]:
    the entry is that patch, or a group whose condition holds and that
    contains it. *)
Definition applies (onlyif_handler : ConditionalPatchHandler) (entry : diff_entry)
    (a : Z) (payload : list Z) : Prop :=
  match entry with
  | Patch a' payload' => a' = a /\ payload' = payload
  | OnlyIf cond nested =>
      gate onlyif_handler cond = Ok true /\ (KInt a, payload) ∈ nested
  end.

(** The three buffers have the sizes of those of [segs0]. *)
Definition same_sizes (segs0 segs : segments) : Prop :=
  let '(t0, r0, d0) := segs0 in
  let '(t, r, d) := segs in
  length (getvalue t) = length (getvalue t0) /\
  length (getvalue r) = length (getvalue r0) /\
  length (getvalue d) = length (getvalue d0).

(** The little-endian u32 stored at [off] in [buf], and the segment header
    stored from [base] on. *)
Definition le32 (v : Z) : list Z := [byte_of v 0; byte_of v 1; byte_of v 2; byte_of v 3].

Definition field (buf : list Z) (off : nat) : Z := unpack_I (slice buf off 4).

Definition header_at (buf : list Z) (base : nat) : SegmentHeader :=
  {| get_file_offset := field buf base;
     get_memory_offset := field buf (base + 4);
     get_decompressed_size := field buf (base + 8);
     get_other := field buf (base + 12) |}.

(** By how much a compressed segment grew: nothing when it shrank. *)
Definition growth (size_diff : Z) : Z := Z.max 0 size_diff.

(** *** The layout of the start-flags blobs, in the words of the spec *)

(** A little-endian u16. *)
Definition u16_le (v : Z) : list Z := [v mod 256; v / 256].

(** A section of u16 flags, closed by the sentinel 0xFFFF. *)
Definition spec_u16_section (flags : list Z) : list Z :=
  concat (map u16_le flags) ++ [255; 255].

(** A section of (scene_index u8, flag u8) pairs, closed by 0xFFFF. *)
Definition spec_pair_section (pairs : list (Z * Z)) : list Z :=
  concat (map (fun '(scene_index, flag) => [scene_index; flag]) pairs) ++ [255; 255].

(** Story, scene, item and dungeon flags, in this order. *)
Definition spec_startflags_blob (story : list Z) (scene : list (Z * Z))
    (item : list Z) (dungeon : list (Z * Z)) : list Z :=
  spec_u16_section story ++ spec_pair_section scene ++
  spec_u16_section item ++ spec_pair_section dungeon.

(** (counter_id u16, amount u16) pairs, closed by 0xFFFFFFFF. *)
Definition spec_counts_blob (counts : list (Z * Z)) : list Z :=
  concat (map (fun '(counter_id, amount) => u16_le counter_id ++ u16_le amount) counts)
  ++ [255; 255; 255; 255].

(** The flags of a section that pass the condition gate. *)
Definition resolved (onlyif_handler : ConditionalPatchHandler)
    (section : list flag_entry) : list Z :=
  concat (map (fun entry =>
                 match entry with
                 | Flag flag => [flag]
                 | OnlyIfFlags condition flags =>
                     match gate onlyif_handler condition with
                     | Ok true => flags
                     | _ => []
                     end
                 end) section).

(** The (scene index, flag) pairs of a scene-indexed section. *)
Definition scene_pairs {asm : AsmConstants} (onlyif_handler : ConditionalPatchHandler)
    (sceneflags : list (string * list flag_entry)) : list (Z * Z) :=
  concat (map (fun '(scene, section) =>
                 map (fun flag => (default 0 (SCENE_NAME_TO_SCENE_INDEX !! scene), flag))
                   (resolved onlyif_handler section)) sceneflags).

(** The position of a [BytesIO] is at the end of its content. *)
Definition at_end (f : BytesIO) : Prop := tell f = length (getvalue f).

(** [m] raises from every state. *)
Definition raises {A} (m : M A) : Prop :=
  forall s, exists s' e, m s = (s', Raise e).

(** ** A small container and a small start-flags file

    The constants of constants/asmconstants.py and the tables of
    constants/itemconstants.py take the values below in the examples; the
    statements that follow hold for any values. *)
Module Example.

Definition asm : AsmConstants := {|
  COMPRESSED_SEGMENT_NSO_OFFSET := 96;
  NSO_FLAGS_OFFSET := 12;
  SUBSDK_STARTFLAG_OFFSET := 1000;
  SUBSDK_START_COUNTS_OFFSET := 2000;
  MAX_STARTFLAGS := 16;
  SCENE_NAME_TO_SCENE_INDEX := {[ "Skyloft" := 3 ]}
|}.

Definition items : ItemConstants := {|
  ITEM_ITEMFLAGS := {[ "Bomb" := PyList [10; 11]; "Bow" := PyInt 5; "Map" := PyInt 0 ]};
  ITEM_STORYFLAGS := {[ "Sword" := PyTuple [300; 301] ]};
  ITEM_COUNTS := {[ "Bomb" := PyTuple [2; 10; 3] ]}
|}.

(** The gate: only condition [a] holds. *)
Definition handler : ConditionalPatchHandler :=
  {| gate := fun cond => Ok (String.eqb cond "a") |}.

Definition offsets : NsoOffsets :=
  {| get_text_offset := 0; get_rodata_offset := 100; get_data_offset := 200 |}.

Definition text : list Z := [1; 2; 3; 4; 5; 6; 7; 8].
Definition rodata : list Z := [9; 9; 9].
Definition data : list Z := [7; 7; 7; 7; 7].

Definition header (file_offset size other : Z) : list Z :=
  le32 file_offset ++ le32 0 ++ le32 size ++ le32 other.

Definition block (x : list Z) : list Z := default [] (Lz4Ref.compress_literals x).

(** A container of 131 bytes: 16 bytes, the three segment headers, the
    rest of the header up to 112, and the three compressed segments. *)
Definition nso_file : list Z :=
  replicate 16 0 ++ header 112 8 0 ++ header 121 3 0 ++ header 125 5 77 ++
  replicate 48 0 ++ block text ++ block rodata ++ block data.

Definition start : sys := {| files := []; queried := [] |}.

Definition empty_startflags : StartFlags :=
  {| Storyflags := []; Sceneflags := []; Itemflags := []; Dungeonflags := [] |}.

Definition startflags : StartFlags :=
  {| Storyflags := [Flag 1; OnlyIfFlags "a" [2; 3]; OnlyIfFlags "b" [4]];
     Sceneflags := [("Skyloft", [Flag 9])];
     Itemflags := [];
     Dungeonflags := [] |}.

Definition pool : list (string * Z) :=
  [("Bomb", 2); ("Bow", 1); ("Sword", 1); ("Junk", 4)].

End Example.


(** ** Further notions: what a run of the diff applier amounts to *)

(** The condition names of the groups of a diff file, in file order. *)
Definition conditions (binary_diffs : list diff_entry) : list string :=
  concat (map (fun entry => match entry with
                            | Patch _ _ => []
                            | OnlyIf cond _ => [cond]
                            end) binary_diffs).

(** The contents of the three segment buffers. *)
Definition contents (segs : segments) : list Z * list Z * list Z :=
  let '(t, r, d) := segs in (getvalue t, getvalue r, getvalue d).

(** The write of [payload] at the address [a] stays inside the segment
    that [a] falls in. *)
Definition fits (offsets : NsoOffsets) (c : list Z * list Z * list Z) (a : Z)
    (payload : list Z) : Prop :=
  let '(t, r, d) := c in
  if a <? get_rodata_offset offsets then
    0 <= a - get_text_offset offsets /\
    a - get_text_offset offsets + len payload <= len t
  else if a <? get_data_offset offsets then
    a - get_rodata_offset offsets + len payload <= len r
  else a - get_data_offset offsets + len payload <= len d.

(** The contents once [payload] is laid over the segment of [a]. *)
Definition patched (offsets : NsoOffsets) (c : list Z * list Z * list Z) (a : Z)
    (payload : list Z) : list Z * list Z * list Z :=
  let '(t, r, d) := c in
  if a <? get_rodata_offset offsets then
    (overwrite t (Z.to_nat (a - get_text_offset offsets)) payload, r, d)
  else if a <? get_data_offset offsets then
    (t, overwrite r (Z.to_nat (a - get_rodata_offset offsets)) payload, d)
  else (t, r, overwrite d (Z.to_nat (a - get_data_offset offsets)) payload).

(** * Properties *)

(** ** The monad *)

Lemma bind_Ok {A B} (m : M A) (k : A -> M B) s s' a :
  m s = (s', Ok a) -> bind m k s = k a s'.
Proof. intros E. unfold bind. by rewrite E. Qed.

Lemma bind_Raise {A B} (m : M A) (k : A -> M B) s s' e :
  m s = (s', Raise e) -> bind m k s = (s', Raise e).
Proof. intros E. unfold bind. by rewrite E. Qed.

Lemma bind_Ok_inv {A B} (m : M A) (k : A -> M B) s s2 b :
  bind m k s = (s2, Ok b) ->
  exists a s1, m s = (s1, Ok a) /\ k a s1 = (s2, Ok b).
Proof.
  unfold bind. destruct (m s) as [s1 [a|e]]; [eauto | discriminate].
Qed.

Lemma ret_Ok_inv {A} (a b : A) s s' : ret a s = (s', Ok b) -> s' = s /\ b = a.
Proof. unfold ret. intros [= -> ->]. done. Qed.

(** ** C1: the codec *)

Lemma read_length_bytes n rest acc :
  0 <= n ->
  Lz4Ref.read_length (Lz4Ref.length_bytes n ++ rest) acc = Some (acc + n, rest).
Proof.
  intros Hn. unfold Lz4Ref.length_bytes.
  assert (Hk : n = 255 * Z.of_nat (Z.to_nat (n / 255)) + n mod 255).
  { rewrite Z2Nat.id by (apply Z.div_pos; lia). apply Z.div_mod. lia. }
  assert (Hr : 0 <= n mod 255 < 255) by (apply Z.mod_pos_bound; lia).
  revert Hk Hr. generalize (n mod 255) as r. generalize (Z.to_nat (n / 255)) as k.
  intros k. revert n acc Hn. induction k as [|k IH]; intros n acc Hn r Hk Hr; simpl.
  - destruct (Z.eqb_spec r 255); [lia|]. do 2 f_equal; lia.
  - rewrite (IH (n - 255)) by lia. do 2 f_equal; lia.
Qed.

Lemma literals_round_trip (x : list Z) :
  len x <= LZ4_MAX_INPUT_SIZE ->
  exists blk, Lz4Ref.compress_literals x = Some blk /\
              Lz4Ref.decompress_safe blk (len x) = Some x.
Proof.
  intros Hx. unfold Lz4Ref.compress_literals.
  destruct (Z.ltb_spec LZ4_MAX_INPUT_SIZE (len x)); [lia|].
  assert (Hlen : 0 <= len x) by (unfold len; lia).
  assert (Htake : take (Z.to_nat (len x)) x = x).
  { apply take_ge. unfold len. lia. }
  assert (Hdrop : drop (Z.to_nat (len x)) x = []).
  { apply drop_ge. unfold len. lia. }
  destruct (Z.ltb_spec (len x) 15) as [Hs|Hs]; eexists; (split; [reflexivity|]).
  - unfold Lz4Ref.decompress_safe. cbn [Lz4Ref.decode length].
    rewrite Z.div_mul by lia.
    unfold Lz4Ref.field_length. destruct (Z.eqb_spec (len x) 15); [lia|].
    cbn [mbind option_bind]. rewrite Z.ltb_irrefl, Htake, Hdrop.
    cbn [app]. by rewrite Z.ltb_irrefl.
  - unfold Lz4Ref.decompress_safe. cbn [Lz4Ref.decode length].
    change (240 / 16) with 15. unfold Lz4Ref.field_length.
    change (15 =? 15) with true. cbv iota.
    rewrite read_length_bytes by lia.
    replace (15 + (len x - 15)) with (len x) by lia.
    cbn [mbind option_bind]. rewrite Z.ltb_irrefl, Htake, Hdrop.
    cbn [app]. by rewrite Z.ltb_irrefl.
Qed.

(** The literal-only compressor and the reference decoder keep the
    contract of the library. *)
Lemma literal_lz4_lawful : Lz4Lawful literal_lz4.
Proof. exact literals_round_trip. Qed.

Lemma pack_I_Ok (v : Z) s :
  0 <= v < 4294967296 ->
  pack_I v s = (s, Ok [byte_of v 0; byte_of v 1; byte_of v 2; byte_of v 3]).
Proof.
  intros Hv. unfold pack_I, in_range.
  destruct (Z.leb_spec 0 v); [|lia]. destruct (Z.ltb_spec v 4294967296); [|lia].
  reflexivity.
Qed.

Section Codec.
Context {lz4 : Lz4Block} {lawful : Lz4Lawful lz4}.

(** C1. For every byte sequence [x] that the LZ4 library accepts (at
    most LZ4_MAX_INPUT_SIZE bytes, which covers every segment),
    decompress(compress(x), len(x)) returns [x]: [compress] strips
    exactly the four bytes of the size prefix, and [decompress], given
    the length, decodes the rest as the block. *)
Theorem compress_decompress_round_trip (x : list Z) (s : sys) :
  len x <= LZ4_MAX_INPUT_SIZE ->
  (c <- compress x; decompress c (len x)) s = (s, Ok x).
Proof.
  intros Hx. destruct (LZ4_block_round_trip x Hx) as (blk & Hc & Hd).
  assert (Hlen : 0 <= len x) by (unfold len; lia).
  unfold compress, lz4_block_compress. rewrite Hc.
  erewrite bind_Ok; cycle 1.
  { erewrite bind_Ok; [reflexivity|].
    erewrite bind_Ok; [reflexivity|].
    apply pack_I_Ok. unfold LZ4_MAX_INPUT_SIZE in Hx. lia. }
  cbn [app drop]. unfold decompress, lz4_block_decompress.
  destruct (Z.leb_spec 0 (len x)); [|lia]. rewrite drop_0. by rewrite Hd.
Qed.
End Codec.

Lemma compress_decompress_round_trip_witness :
  (c <- compress (lz4 := literal_lz4) [1; 2; 3; 250; 0];
   decompress (lz4 := literal_lz4) c 5) (Sys [] []) = (Sys [] [], Ok [1; 2; 3; 250; 0]).
Proof.
  apply (@compress_decompress_round_trip literal_lz4 literal_lz4_lawful
           [1; 2; 3; 250; 0] (Sys [] [])).
  vm_compute. discriminate.
Defined.

(** ** Buffers *)

Lemma length_overwrite (buf raw : list Z) (off : nat) :
  (off + length raw <= length buf)%nat ->
  length (overwrite buf off raw) = length buf.
Proof.
  intros Hfit. unfold overwrite.
  rewrite !length_app, length_take, length_drop. lia.
Qed.

Lemma length_overwrite_le (buf raw : list Z) (off : nat) :
  (length buf <= length (overwrite buf off raw))%nat.
Proof.
  unfold overwrite. rewrite !length_app, length_take, length_drop. lia.
Qed.

Lemma lookup_overwrite (buf raw : list Z) (off i : nat) :
  (off <= length buf)%nat ->
  overwrite buf off raw !! i =
    if decide (off <= i < off + length raw)%nat then raw !! (i - off)%nat
    else buf !! i.
Proof.
  intros Hfit. unfold overwrite.
  assert (Htake : length (take off buf) = off) by (rewrite length_take; lia).
  destruct (decide (i < off)%nat) as [Hlt|Hge].
  - rewrite lookup_app_l by lia. rewrite lookup_take_lt by lia.
    case_decide; [lia | done].
  - rewrite lookup_app_r by lia. rewrite Htake.
    destruct (decide (i - off < length raw)%nat) as [Hin|Hout].
    + rewrite lookup_app_l by lia. case_decide; [done | lia].
    + rewrite lookup_app_r by lia. rewrite lookup_drop.
      case_decide; [lia|]. f_equal. lia.
Qed.

Lemma slice_overwrite_same (buf raw : list Z) (off : nat) :
  (off <= length buf)%nat ->
  slice (overwrite buf off raw) off (length raw) = raw.
Proof.
  intros Hfit. apply list_eq. intros i. unfold slice.
  destruct (decide (i < length raw)%nat) as [Hlt|Hge].
  - rewrite lookup_take_lt, lookup_drop, lookup_overwrite by lia.
    case_decide; [|lia]. f_equal. lia.
  - rewrite lookup_take_ge by lia. symmetry. apply lookup_ge_None. lia.
Qed.

Lemma slice_overwrite_other (buf raw : list Z) (off off' n : nat) :
  (off <= length buf)%nat ->
  (off' + n <= off \/ off + length raw <= off')%nat ->
  slice (overwrite buf off raw) off' n = slice buf off' n.
Proof.
  intros Hfit Hdisj. apply list_eq. intros i. unfold slice.
  destruct (decide (i < n)%nat) as [Hlt|Hge].
  - rewrite !lookup_take_lt, !lookup_drop, lookup_overwrite by lia.
    case_decide; [lia | done].
  - by rewrite !lookup_take_ge by lia.
Qed.

Lemma slice_app_l (buf pad : list Z) (off n : nat) :
  (off + n <= length buf)%nat -> slice (buf ++ pad) off n = slice buf off n.
Proof.
  intros Hfit. unfold slice. rewrite drop_app_le by lia.
  apply take_app_le. rewrite length_drop. lia.
Qed.

Lemma overwrite_nil (buf : list Z) (off : nat) : overwrite buf off [] = buf.
Proof. unfold overwrite. cbn [app length]. rewrite Nat.add_0_r. apply take_drop. Qed.

Lemma getvalue_write (raw : list Z) (f : BytesIO) :
  (tell f + length raw <= length (getvalue f))%nat ->
  getvalue (write raw f) = overwrite (getvalue f) (tell f) raw.
Proof.
  intros Hfit. destruct raw as [|b raw].
  - by rewrite overwrite_nil.
  - cbn [write getvalue].
    replace (tell f - length (getvalue f))%nat with 0%nat by lia.
    cbn [replicate]. by rewrite app_nil_r.
Qed.

(** What a write leaves in the buffer, wherever the position is. *)
Lemma write_written (raw : list Z) (f : BytesIO) :
  (length (getvalue f) <= length (getvalue (write raw f)))%nat /\
  slice (getvalue (write raw f)) (tell f) (length raw) = raw /\
  forall off n : nat,
    (off + n <= length (getvalue f))%nat ->
    (off + n <= tell f \/ tell f + length raw <= off)%nat ->
    slice (getvalue (write raw f)) off n = slice (getvalue f) off n.
Proof.
  destruct raw as [|b raw].
  - cbn [write length]. split; [lia|]. split; [by unfold slice | done].
  - cbn [write getvalue].
    set (padded := getvalue f ++ replicate (tell f - length (getvalue f)) 0).
    assert (Hpad : (tell f <= length padded)%nat).
    { unfold padded. rewrite length_app, length_replicate. lia. }
    assert (Hlen : (length (getvalue f) <= length padded)%nat).
    { unfold padded. rewrite length_app. lia. }
    split; [|split].
    + pose proof (length_overwrite_le padded (b :: raw) (tell f)). lia.
    + by apply slice_overwrite_same.
    + intros off n Hin Hdisj. rewrite slice_overwrite_other by done.
      by apply slice_app_l.
Qed.

(** *** The two helpers *)

Lemma seek_write_fs_lawful : FsLawful seek_write_fs.
Proof.
  split; cbn [write_bytes seek_write_fs]; unfold seek, bind, ret, raise.
  - intros data offset raw s s' r. by destruct (offset <? 0); intros [= <- _].
  - intros data offset raw s H0 Hfit.
    destruct (Z.ltb_spec offset 0); [lia|].
    eexists. split; [reflexivity|].
    apply getvalue_write. cbn [tell getvalue]. unfold len in *. lia.
  - intros data data' offset raw s s'.
    destruct (Z.ltb_spec offset 0); [done|]. intros [= _ <-].
    split; [lia|].
    apply (write_written raw {| getvalue := getvalue data; tell := Z.to_nat offset |}).
Qed.

Lemma checked_fs_lawful : FsLawful checked_fs.
Proof.
  split; cbn [write_bytes checked_fs].
  - intros data offset raw s s' r.
    destruct (len (getvalue data) <? offset + len raw); [by intros [= <- _]|].
    apply (write_bytes_pure (fs := seek_write_fs) (FsLawful := seek_write_fs_lawful)).
  - intros data offset raw s H0 Hfit.
    destruct (Z.ltb_spec (len (getvalue data)) (offset + len raw)); [lia|].
    by apply (write_bytes_in_bounds (fs := seek_write_fs) (FsLawful := seek_write_fs_lawful)).
  - intros data data' offset raw s s'.
    destruct (len (getvalue data) <? offset + len raw); [done|].
    apply (write_bytes_written (fs := seek_write_fs) (FsLawful := seek_write_fs_lawful)).
Qed.

Lemma checked_fs_bounded : FsBounded checked_fs.
Proof.
  intros data offset raw s Hpast. cbn [write_bytes checked_fs].
  destruct (Z.ltb_spec (len (getvalue data)) (offset + len raw)); [|lia].
  by exists BoundsError.
Qed.

(** A seek followed by a write does not keep the bounds: past the end it
    extends the buffer and fills the gap with zeros. *)
Lemma seek_write_fs_extends :
  write_bytes (FsHelpers := seek_write_fs) (BytesIO_new [1; 2; 3]) 5 [9] (Sys [] [])
  = (Sys [] [], Ok {| getvalue := [1; 2; 3; 0; 0; 9]; tell := 6 |}).
Proof. reflexivity. Qed.

Lemma unpack_pack_I (v : Z) :
  0 <= v < 4294967296 ->
  unpack_I [byte_of v 0; byte_of v 1; byte_of v 2; byte_of v 3] = v.
Proof.
  intros Hv. unfold unpack_I, byte_of.
  change (256 ^ 0) with 1. change (256 ^ 1) with 256.
  change (256 ^ 2) with 65536. change (256 ^ 3) with 16777216.
  Z.div_mod_to_equations. lia.
Qed.

(** ** C6: the diff applier *)

Lemma bytes_of_Ok (data : list Z) (s : sys) :
  forallb (in_range 0 256) data = true -> bytes_of data s = (s, Ok data).
Proof. intros Hb. unfold bytes_of. by rewrite Hb. Qed.

Section DiffApplier.
Context {fs : FsHelpers} {lawful : FsLawful fs}.

Lemma write_bytes_overwritten (data : BytesIO) (offset : Z) (raw : list Z) (s : sys) :
  0 <= offset -> offset + len raw <= len (getvalue data) ->
  exists data', write_bytes data offset raw s = (s, Ok data') /\
                overwritten (getvalue data) (getvalue data') offset raw.
Proof.
  intros H0 Hfit.
  destruct (write_bytes_in_bounds data offset raw s H0 Hfit) as (data' & Hw & Hv).
  exists data'. split; [done|]. rewrite Hv. unfold overwritten, len in *. split.
  - apply length_overwrite. lia.
  - intros i. rewrite lookup_overwrite by lia.
    repeat case_decide; try done; try lia. f_equal. lia.
Qed.

(** C6. With ascending boundaries text_offset < rodata_offset <
    data_offset, [write_patch] sends an address below rodata_offset to the
    text segment, an address from rodata_offset up to data_offset to the
    rodata segment and any other to the data segment; it overwrites
    len(payload) bytes at the address minus the boundary of that segment,
    and every other byte of the three segments keeps its value. *)
Theorem write_patch_classifies (offsets : NsoOffsets) (t r d : BytesIO)
    (a : Z) (payload : list Z) (s : sys) :
  get_text_offset offsets < get_rodata_offset offsets < get_data_offset offsets ->
  forallb (in_range 0 256) payload = true ->
  (a < get_rodata_offset offsets ->
   0 <= a - get_text_offset offsets ->
   a - get_text_offset offsets + len payload <= len (getvalue t) ->
   exists t', write_patch (KInt a) offsets t r d payload s = (s, Ok (t', r, d)) /\
              overwritten (getvalue t) (getvalue t') (a - get_text_offset offsets) payload) /\
  (get_rodata_offset offsets <= a < get_data_offset offsets ->
   a - get_rodata_offset offsets + len payload <= len (getvalue r) ->
   exists r', write_patch (KInt a) offsets t r d payload s = (s, Ok (t, r', d)) /\
              overwritten (getvalue r) (getvalue r') (a - get_rodata_offset offsets) payload) /\
  (get_data_offset offsets <= a ->
   a - get_data_offset offsets + len payload <= len (getvalue d) ->
   exists d', write_patch (KInt a) offsets t r d payload s = (s, Ok (t, r, d')) /\
              overwritten (getvalue d) (getvalue d') (a - get_data_offset offsets) payload).
Proof.
  intros Hasc Hbytes. unfold write_patch, key_lt, key_sub.
  repeat split.
  - intros Ha H0 Hfit.
    destruct (write_bytes_overwritten t _ payload s H0 Hfit) as (t' & Hw & Hov).
    exists t'. split; [|done].
    rewrite (bind_Ok _ _ s s true).
    2:{ unfold ret. do 2 f_equal. apply Z.ltb_lt. lia. }
    rewrite (bind_Ok _ _ s s (a - get_text_offset offsets)) by done.
    rewrite (bind_Ok _ _ s s payload) by by apply bytes_of_Ok.
    by rewrite (bind_Ok _ _ s s t').
  - intros Ha Hfit.
    assert (H0 : 0 <= a - get_rodata_offset offsets) by lia.
    destruct (write_bytes_overwritten r _ payload s H0 Hfit) as (r' & Hw & Hov).
    exists r'. split; [|done].
    rewrite (bind_Ok _ _ s s false).
    2:{ unfold ret. do 2 f_equal. apply Z.ltb_ge. lia. }
    rewrite (bind_Ok _ _ s s true).
    2:{ unfold ret. do 2 f_equal. apply Z.ltb_lt. lia. }
    rewrite (bind_Ok _ _ s s (a - get_rodata_offset offsets)) by done.
    rewrite (bind_Ok _ _ s s payload) by by apply bytes_of_Ok.
    by rewrite (bind_Ok _ _ s s r').
  - intros Ha Hfit.
    assert (H0 : 0 <= a - get_data_offset offsets) by lia.
    destruct (write_bytes_overwritten d _ payload s H0 Hfit) as (d' & Hw & Hov).
    exists d'. split; [|done].
    rewrite (bind_Ok _ _ s s false).
    2:{ unfold ret. do 2 f_equal. apply Z.ltb_ge. lia. }
    rewrite (bind_Ok _ _ s s false).
    2:{ unfold ret. do 2 f_equal. apply Z.ltb_ge. lia. }
    rewrite (bind_Ok _ _ s s (a - get_data_offset offsets)) by done.
    rewrite (bind_Ok _ _ s s payload) by by apply bytes_of_Ok.
    by rewrite (bind_Ok _ _ s s d').
Qed.
End DiffApplier.

(** ** Effects of the operations *)

Create HintDb effects.

Lemma preserves_ret {X A} (f : sys -> X) (a : A) : preserves f (ret a).
Proof. intros s s' r [= <- _]. done. Qed.

Lemma preserves_raise {X A} (f : sys -> X) (e : exn) : preserves f (@raise A e).
Proof. intros s s' r [= <- _]. done. Qed.

Lemma preserves_bind {X A B} (f : sys -> X) (m : M A) (k : A -> M B) :
  preserves f m -> (forall a, preserves f (k a)) -> preserves f (bind m k).
Proof.
  intros Hm Hk s s' r. unfold bind.
  destruct (m s) as [s1 [a|e]] eqn:E.
  - intros Hka. rewrite (Hk a s1 s' r Hka). by apply (Hm s s1 (Ok a)).
  - intros [= <- _]. by apply (Hm s s1 (Raise e)).
Qed.

Lemma preserves_for {X A S} (f : sys -> X) (xs : list A) (body : A -> S -> M S) :
  (forall x acc, preserves f (body x acc)) ->
  forall acc, preserves f (for_ xs body acc).
Proof.
  intros Hbody. induction xs as [|x xs IH]; intros acc; cbn [for_].
  - apply preserves_ret.
  - apply preserves_bind; [apply Hbody | apply IH].
Qed.

Lemma preserves_files_evaluate_onlyif h cond :
  preserves files (evaluate_onlyif h cond).
Proof. intros s s' r [= <- _]. done. Qed.

#[local] Hint Resolve preserves_ret preserves_raise preserves_files_evaluate_onlyif
  : effects.

(** Goes through the structure of a computation, one bind, loop or case
    distinction at a time. *)
Ltac effects :=
  repeat first
    [ progress intros
    | progress cbv beta
    | solve [eauto with effects]
    | apply preserves_bind
    | apply preserves_for
    | match goal with
      | |- preserves _ (match ?x with _ => _ end) => destruct x
      | |- context [match ?x with _ => _ end] => is_var x; destruct x
      end ].

Lemma preserves_pack_I {X} (f : sys -> X) v : preserves f (pack_I v).
Proof. unfold pack_I. effects. Qed.
Lemma preserves_pack_B {X} (f : sys -> X) v : preserves f (pack_B v).
Proof. unfold pack_B. effects. Qed.
Lemma preserves_pack_H {X} (f : sys -> X) v : preserves f (pack_H v).
Proof. unfold pack_H. effects. Qed.
Lemma preserves_pack_BB {X} (f : sys -> X) a b : preserves f (pack_BB a b).
Proof. unfold pack_BB. effects. Qed.
Lemma preserves_pack_HH {X} (f : sys -> X) a b : preserves f (pack_HH a b).
Proof. unfold pack_HH. effects. Qed.
Lemma preserves_bytes_of {X} (f : sys -> X) data : preserves f (bytes_of data).
Proof. unfold bytes_of. effects. Qed.
Lemma preserves_seek {X} (f : sys -> X) pos file : preserves f (seek pos file).
Proof. unfold seek. effects. Qed.
#[local] Hint Resolve preserves_pack_I preserves_pack_B preserves_pack_H
  preserves_pack_BB preserves_pack_HH preserves_bytes_of preserves_seek : effects.

Lemma preserves_bytes_to_segment_header {X} (f : sys -> X) raw :
  preserves f (bytes_to_segment_header raw).
Proof. unfold bytes_to_segment_header. effects. Qed.
Lemma preserves_key_lt {X} (f : sys -> X) k n : preserves f (key_lt k n).
Proof. unfold key_lt. effects. Qed.
Lemma preserves_key_sub {X} (f : sys -> X) k n : preserves f (key_sub k n).
Proof. unfold key_sub. effects. Qed.
#[local] Hint Resolve preserves_bytes_to_segment_header preserves_key_lt
  preserves_key_sub : effects.

Lemma preserves_get_segments {X} (f : sys -> X) nso : preserves f (get_segments nso).
Proof. unfold get_segments. effects. Qed.
#[local] Hint Resolve preserves_get_segments : effects.

Section HelperEffects.
Context {fs : FsHelpers} {lawful : FsLawful fs}.

Lemma preserves_write_bytes {X} (f : sys -> X) data offset raw :
  preserves f (write_bytes data offset raw).
Proof.
  intros s s' r Hrun. apply write_bytes_pure in Hrun. by subst.
Qed.
Hint Resolve preserves_write_bytes : effects.

Lemma preserves_write_u32 {X} (f : sys -> X) data offset v :
  preserves f (write_u32 data offset v).
Proof. unfold write_u32. effects. Qed.
Lemma preserves_write_u8 {X} (f : sys -> X) data offset v :
  preserves f (write_u8 data offset v).
Proof. unfold write_u8. effects. Qed.

Lemma preserves_write_patch {X} (f : sys -> X) k offsets t r d data :
  preserves f (write_patch k offsets t r d data).
Proof. unfold write_patch. effects. Qed.
End HelperEffects.
#[local] Hint Resolve preserves_write_bytes preserves_write_u32 preserves_write_u8
  preserves_write_patch : effects.

Section HandlerEffects.
Context {lz4 : Lz4Block} {fs : FsHelpers} {lawful : FsLawful fs}
  {asm : AsmConstants} {items : ItemConstants}.

Lemma preserves_compress {X} (f : sys -> X) data : preserves f (compress data).
Proof. unfold compress, lz4_block_compress. effects. Qed.

Lemma preserves_decompress {X} (f : sys -> X) data size :
  preserves f (decompress data size).
Proof. unfold decompress, lz4_block_decompress. effects. Qed.

Hint Resolve preserves_compress preserves_decompress : effects.

Lemma preserves_load_segments {X} (f : sys -> X) nso_file :
  preserves f (load_segments nso_file).
Proof. unfold load_segments. effects. Qed.

Lemma preserves_recompress {X} (f : sys -> X) segs : preserves f (recompress segs).
Proof. unfold recompress. effects. Qed.

Lemma preserves_relocate_headers {X} (f : sys -> X) nso hdrs dt dr dd :
  preserves f (relocate_headers nso hdrs dt dr dd).
Proof. unfold relocate_headers. effects. Qed.

Lemma preserves_files_apply_entry h offsets entry segs :
  preserves files (apply_entry h offsets entry segs).
Proof. unfold apply_entry. effects. Qed.

Lemma preserves_files_apply_diffs h offsets diff_files segs :
  preserves files (apply_diffs h offsets diff_files segs).
Proof.
  unfold apply_diffs. effects. apply preserves_files_apply_entry.
Qed.
End HandlerEffects.

(** ** C3: writes past the end of a segment *)

(** Takes a successful run of a sequence of binds apart. *)
Ltac inv_bind H :=
  let a := fresh "a" in
  let s := fresh "s" in
  let Hm := fresh "Hm" in
  apply bind_Ok_inv in H as (a & s & Hm & H).

Tactic Notation "bind_inv" hyp(H) "as" ident(a) ident(s) ident(Hm) :=
  apply bind_Ok_inv in H as (a & s & Hm & H).

Lemma for_raises {A S} (I : S -> Prop) (body : A -> S -> M S) (xs : list A) (x : A) :
  x ∈ xs ->
  (forall y acc s s' acc', I acc -> body y acc s = (s', Ok acc') -> I acc') ->
  (forall acc s, I acc -> exists s' e, body x acc s = (s', Raise e)) ->
  forall acc s, I acc -> exists s' e, for_ xs body acc s = (s', Raise e).
Proof.
  intros Hin Hkeep Hfail. induction xs as [|y xs IH]; intros acc s Hacc.
  - by apply elem_of_nil in Hin.
  - cbn [for_]. destruct (body y acc s) as [s1 [acc'|e]] eqn:E.
    + apply elem_of_cons in Hin as [->|Hin].
      * destruct (Hfail acc s Hacc) as (s' & e & E'). congruence.
      * rewrite (bind_Ok _ _ _ _ _ E). apply IH; [done|]. by eapply Hkeep.
    + exists s1, e. by apply bind_Raise.
Qed.

Lemma for_invariant {A S} (I : S -> Prop) (body : A -> S -> M S) (xs : list A) :
  (forall y acc s s' acc', I acc -> body y acc s = (s', Ok acc') -> I acc') ->
  forall acc s s' acc', I acc -> for_ xs body acc s = (s', Ok acc') -> I acc'.
Proof.
  intros Hkeep. induction xs as [|y xs IH]; intros acc s s' acc' Hacc Hrun.
  - apply ret_Ok_inv in Hrun as [_ ->]. done.
  - cbn [for_] in Hrun. inv_bind Hrun. eapply IH; [|done]. by eapply Hkeep.
Qed.

Lemma same_sizes_refl segs : same_sizes segs segs.
Proof. by destruct segs as [[t r] d]. Qed.

Lemma same_sizes_trans segs0 segs1 segs2 :
  same_sizes segs0 segs1 -> same_sizes segs1 segs2 -> same_sizes segs0 segs2.
Proof.
  destruct segs0 as [[t0 r0] d0], segs1 as [[t1 r1] d1], segs2 as [[t2 r2] d2].
  unfold same_sizes. intros (?&?&?) (?&?&?). repeat split; congruence.
Qed.

Lemma past_end_same_sizes offsets segs0 segs a payload :
  same_sizes segs0 segs -> past_end offsets segs0 a payload ->
  past_end offsets segs a payload.
Proof.
  destruct segs0 as [[t0 r0] d0], segs as [[t r] d].
  unfold same_sizes, past_end, len. intros (->&->&->). done.
Qed.

Section OutOfBounds.
Context {lz4 : Lz4Block} {fs : FsHelpers} {lawful : FsLawful fs}
  {bounded : FsBounded fs} {asm : AsmConstants} {items : ItemConstants}.

Lemma write_bytes_same_size data data' offset raw s s' :
  write_bytes data offset raw s = (s', Ok data') ->
  length (getvalue data') = length (getvalue data).
Proof.
  intros Hw.
  destruct (Z.lt_ge_cases (len (getvalue data)) (offset + len raw)) as [Hpast|Hfit].
  - destruct (write_bytes_bounded data offset raw s Hpast) as [e He]. congruence.
  - pose proof (write_bytes_written _ _ _ _ _ _ Hw) as [H0 _].
    destruct (write_bytes_in_bounds data offset raw s H0 Hfit) as (d & Hd & Hv).
    rewrite Hd in Hw. injection Hw as _ <-. rewrite Hv.
    apply length_overwrite. unfold len in Hfit. lia.
Qed.

(** A write that returns leaves the sizes of the three buffers alone. *)
Lemma write_patch_same_sizes k offsets t r d data s s' segs' :
  write_patch k offsets t r d data s = (s', Ok segs') ->
  same_sizes (t, r, d) segs'.
Proof.
  unfold write_patch. intros Hw. inv_bind Hw.
  destruct a; [|inv_bind Hw; destruct a];
    do 3 inv_bind Hw; apply ret_Ok_inv in Hw as [_ ->];
    match goal with
    | Hwb : write_bytes _ _ _ _ = _ |- _ => apply write_bytes_same_size in Hwb
    end; by repeat split.
Qed.

(** A write that reaches past the end of its segment raises. *)
Lemma write_patch_past_end offsets t r d a payload s :
  past_end offsets (t, r, d) a payload ->
  exists e, write_patch (KInt a) offsets t r d payload s = (s, Raise e).
Proof.
  unfold past_end, write_patch, key_lt, key_sub, bytes_of. intros Hpast.
  destruct (a <? get_rodata_offset offsets);
    [|destruct (a <? get_data_offset offsets)];
    cbn [bind ret];
    (destruct (forallb (in_range 0 256) payload);
     [ cbn [bind ret raise];
       destruct (write_bytes_bounded _ _ _ s Hpast) as [e He];
       exists e; by apply bind_Raise
     | cbn [bind ret raise]; eauto ]).
Qed.

Lemma apply_entry_same_sizes h offsets entry segs0 segs s s' segs' :
  same_sizes segs0 segs ->
  apply_entry h offsets entry segs s = (s', Ok segs') ->
  same_sizes segs0 segs'.
Proof.
  intros Hsz. destruct entry as [a payload|cond nested]; cbn [apply_entry].
  - destruct segs as [[t r] d]. intros Hw.
    apply write_patch_same_sizes in Hw. by eapply same_sizes_trans.
  - intros Hrun. inv_bind Hrun. destruct a.
    + revert Hrun. apply for_invariant; [|done].
      intros [k data2] [[t r] d] s1 s2 acc' Hacc Hw.
      apply write_patch_same_sizes in Hw. by eapply same_sizes_trans.
    + apply ret_Ok_inv in Hrun as [_ ->]. done.
Qed.

Lemma apply_entry_past_end h offsets entry a payload segs0 :
  applies h entry a payload ->
  past_end offsets segs0 a payload ->
  forall segs s, same_sizes segs0 segs ->
  exists s' e, apply_entry h offsets entry segs s = (s', Raise e).
Proof.
  intros Happ Hpast segs s Hsz.
  destruct entry as [a' payload'|cond nested]; cbn [apply_entry applies] in *.
  - destruct Happ as [-> ->]. destruct segs as [[t r] d].
    destruct (write_patch_past_end offsets t r d a payload s) as [e He];
      [by eapply past_end_same_sizes | eauto].
  - destruct Happ as [Hgate Hin].
    erewrite bind_Ok; [|unfold evaluate_onlyif; by rewrite Hgate].
    revert Hsz. apply (for_raises (same_sizes segs0) _ nested _ Hin).
    + intros [k data2] [[t r] d] s1 s2 acc' Hacc Hw.
      apply write_patch_same_sizes in Hw. by eapply same_sizes_trans.
    + intros [[t r] d] s1 Hacc.
      destruct (write_patch_past_end offsets t r d a payload s1) as [e He];
        [by eapply past_end_same_sizes | eauto].
Qed.

Lemma apply_diffs_past_end h offsets diff_files file entry a payload segs s :
  file ∈ diff_files -> entry ∈ file ->
  applies h entry a payload ->
  past_end offsets segs a payload ->
  exists s' e, apply_diffs h offsets diff_files segs s = (s', Raise e).
Proof.
  intros Hfile Hentry Happ Hpast. unfold apply_diffs.
  apply (for_raises (same_sizes segs) _ diff_files _ Hfile);
    [| |apply same_sizes_refl].
  - intros binary_diffs acc s1 s2 acc' Hacc. apply for_invariant; [|done].
    intros entry' acc1 s3 s4 acc2 Hacc1. by apply apply_entry_same_sizes.
  - intros acc s1 Hacc.
    apply (for_raises (same_sizes segs) _ file _ Hentry); [| |done].
    + intros entry' acc1 s3 s4 acc2 Hacc1. by apply apply_entry_same_sizes.
    + intros acc1 s3 Hacc1. by eapply apply_entry_past_end.
Qed.

End OutOfBounds.

(** ** C7: conditional groups *)

Lemma for_ext {A S} (body1 body2 : A -> S -> M S) (xs : list A) :
  (forall x acc s, body1 x acc s = body2 x acc s) ->
  forall acc s, for_ xs body1 acc s = for_ xs body2 acc s.
Proof.
  intros Hext. induction xs as [|x xs IH]; intros acc s; [done|].
  cbn [for_]. unfold bind. rewrite Hext.
  destruct (body2 x acc s) as [s1 [acc'|e]]; [apply IH | done].
Qed.

Lemma for_map {A B S} (g : A -> B) (body : B -> S -> M S) (xs : list A) :
  forall acc s, for_ (map g xs) body acc s = for_ xs (fun x => body (g x)) acc s.
Proof.
  induction xs as [|x xs IH]; intros acc s; [done|].
  cbn [for_ map]. unfold bind.
  destruct (body (g x) acc s) as [s1 [acc'|e]]; [apply IH | done].
Qed.

Section Conditional.
Context {lz4 : Lz4Block} {fs : FsHelpers} {lawful : FsLawful fs}
  {asm : AsmConstants} {items : ItemConstants}.

Lemma preserves_queried_nested offsets (nested : list (key * list Z)) segs :
  preserves queried
    (for_ nested (fun '(relative_offset, data2) '(t, r, d) =>
                    write_patch relative_offset offsets t r d data2) segs).
Proof. effects. Qed.

End Conditional.

(** ** C2: relocation of the segment headers *)

Lemma slice_slice (buf : list Z) (off n off' n' : nat) :
  (off' + n' <= n)%nat ->
  slice (slice buf off n) off' n' = slice buf (off + off') n'.
Proof.
  intros Hin. apply list_eq. intros i. unfold slice.
  destruct (decide (i < n')%nat).
  - rewrite !lookup_take_lt, !lookup_drop by lia.
    rewrite lookup_take_lt, lookup_drop by lia. f_equal. lia.
  - by rewrite !lookup_take_ge by lia.
Qed.

Lemma length_slice (buf : list Z) (off n : nat) :
  length (slice buf off n) = (n `min` (length buf - off))%nat.
Proof. unfold slice. by rewrite length_take, length_drop. Qed.

Lemma bytes_to_segment_header_Ok (buf : list Z) (base : nat) (s : sys) :
  (base + 16 <= length buf)%nat ->
  bytes_to_segment_header (slice buf base 16) s = (s, Ok (header_at buf base)).
Proof.
  intros Hfit. unfold bytes_to_segment_header, len.
  rewrite length_slice. unfold SEGMENT_HEADER_SIZE.
  destruct (Z.eqb_spec (Z.of_nat (16 `min` (length buf - base))) 16); [|lia].
  unfold header_at, field. rewrite !slice_slice by lia.
  by rewrite Nat.add_0_r.
Qed.

Lemma bytes_to_segment_header_Ok_inv (raw : list Z) (s s' : sys) hdr :
  bytes_to_segment_header raw s = (s', Ok hdr) -> length raw = 16%nat.
Proof.
  unfold bytes_to_segment_header, len, SEGMENT_HEADER_SIZE.
  destruct (Z.eqb_spec (Z.of_nat (length raw)) 16); [lia | done].
Qed.

(** [get_segments] returns the three records stored from 0x10 on. *)
Lemma get_segments_Ok (nso : BytesIO) (s : sys) :
  (64 <= length (getvalue nso))%nat ->
  get_segments nso s =
    (s, Ok ((header_at (getvalue nso) 16, header_at (getvalue nso) 32,
             header_at (getvalue nso) 48),
            {| getvalue := getvalue nso; tell := 64 |})).
Proof.
  intros Hlen. unfold get_segments, seek, read, SEGMENT_HEADER_SIZE.
  cbn [Z.ltb Z.compare bind ret getvalue tell].
  change (Z.to_nat 16) with 16%nat.
  repeat match goal with
  | |- context [take ?n (drop ?off ?buf)] =>
      change (take n (drop off buf)) with (slice buf off n)
  end.
  assert (Hsl : forall base, (base + 16 <= length (getvalue nso))%nat ->
                length (slice (getvalue nso) base 16) = 16%nat).
  { intros base Hb. rewrite length_slice. lia. }
  rewrite (Hsl 16%nat) by lia. cbn [Init.Nat.add].
  rewrite (Hsl 32%nat) by lia. cbn [Init.Nat.add].
  rewrite (Hsl 48%nat) by lia. cbn [Init.Nat.add].
  rewrite (bind_Ok _ _ _ _ _ (bytes_to_segment_header_Ok (getvalue nso) 16 s ltac:(lia))).
  rewrite (bind_Ok _ _ _ _ _ (bytes_to_segment_header_Ok (getvalue nso) 32 s ltac:(lia))).
  rewrite (bind_Ok _ _ _ _ _ (bytes_to_segment_header_Ok (getvalue nso) 48 s ltac:(lia))).
  reflexivity.
Qed.

(** [get_segments] returns only when the image holds the three records. *)
Lemma get_segments_Ok_inv (nso nso' : BytesIO) (s s' : sys) (hdrs : headers) :
  get_segments nso s = (s', Ok (hdrs, nso')) ->
  (64 <= length (getvalue nso))%nat.
Proof.
  unfold get_segments, seek, read, SEGMENT_HEADER_SIZE.
  cbn [Z.ltb Z.compare bind ret getvalue tell].
  change (Z.to_nat 16) with 16%nat.
  repeat match goal with
  | |- context [take ?n (drop ?off ?buf)] =>
      change (take n (drop off buf)) with (slice buf off n)
  end.
  intros Hrun.
  inv_bind Hrun. apply bytes_to_segment_header_Ok_inv in Hm as E1.
  rewrite E1 in Hrun. cbn [Init.Nat.add] in Hrun.
  inv_bind Hrun. apply bytes_to_segment_header_Ok_inv in Hm0 as E2.
  rewrite E2 in Hrun. cbn [Init.Nat.add] in Hrun.
  inv_bind Hrun. apply bytes_to_segment_header_Ok_inv in Hm1 as E3.
  rewrite length_slice in E3. lia.
Qed.

Lemma get_segments_headers (nso nso' : BytesIO) (s s' : sys) (hdrs : headers) :
  get_segments nso s = (s', Ok (hdrs, nso')) ->
  (64 <= length (getvalue nso))%nat /\
  hdrs = (header_at (getvalue nso) 16, header_at (getvalue nso) 32,
          header_at (getvalue nso) 48).
Proof.
  intros Hrun. pose proof (get_segments_Ok_inv _ _ _ _ _ Hrun) as Hlen.
  rewrite (get_segments_Ok nso s Hlen) in Hrun. by injection Hrun as _ <- _.
Qed.

Lemma field_overwrite_same (buf : list Z) (off : nat) (v : Z) :
  (off + 4 <= length buf)%nat -> 0 <= v < 4294967296 ->
  field (overwrite buf off (le32 v)) off = v.
Proof.
  intros Hfit Hv. unfold field.
  change 4%nat with (length (le32 v)).
  rewrite (slice_overwrite_same buf (le32 v) off) by lia.
  by apply unpack_pack_I.
Qed.

Lemma field_overwrite_other (buf : list Z) (off off' : nat) (v : Z) :
  (off + 4 <= length buf)%nat ->
  (off' + 4 <= off \/ off + 4 <= off')%nat ->
  field (overwrite buf off (le32 v)) off' = field buf off'.
Proof.
  intros Hfit Hdisj. unfold field. by rewrite slice_overwrite_other by (done || lia).
Qed.

Section Relocation.
Context {lz4 : Lz4Block} {fs : FsHelpers} {lawful : FsLawful fs}
  {asm : AsmConstants} {items : ItemConstants}.

(** Inside the bounds [write_u32] stores a u32 as four bytes. *)
Lemma write_u32_Ok (nso : BytesIO) (off v : Z) (s : sys) :
  0 <= off -> off + 4 <= len (getvalue nso) -> 0 <= v < 4294967296 ->
  exists nso', write_u32 nso off v s = (s, Ok nso') /\
               getvalue nso' = overwrite (getvalue nso) (Z.to_nat off) (le32 v).
Proof.
  intros H0 Hfit Hv. unfold write_u32.
  rewrite (bind_Ok _ _ _ _ _ (pack_I_Ok v s Hv)).
  by apply write_bytes_in_bounds.
Qed.

(** A guarded write of a u32, as in [if diff > 0: write_u32(...)]. *)
Lemma guarded_write_u32 (b : bool) (nso : BytesIO) (off : nat) (v : Z) (s : sys) :
  (off + 4 <= length (getvalue nso))%nat ->
  (b = true -> 0 <= v < 4294967296) ->
  exists nso',
    (if b then write_u32 nso (Z.of_nat off) v else ret nso) s = (s, Ok nso') /\
    length (getvalue nso') = length (getvalue nso) /\
    field (getvalue nso') off = (if b then v else field (getvalue nso) off) /\
    (b = false -> getvalue nso' = getvalue nso) /\
    forall off', (off' + 4 <= off \/ off + 4 <= off')%nat ->
                 field (getvalue nso') off' = field (getvalue nso) off'.
Proof.
  intros Hfit Hv. destruct b.
  - destruct (write_u32_Ok nso (Z.of_nat off) v s) as (nso' & Hw & Hval);
      [lia | unfold len; lia | auto |].
    exists nso'. rewrite Hval, Nat2Z.id. repeat split; [done| | |done|].
    + by apply length_overwrite.
    + by apply field_overwrite_same; auto.
    + intros off' Hdisj. by apply field_overwrite_other.
  - exists nso. by repeat split.
Qed.

End Relocation.

(** ** C8: the compressed sizes *)

Section Sizes.
Context {lz4 : Lz4Block} {fs : FsHelpers} {lawful : FsLawful fs}
  {asm : AsmConstants} {items : ItemConstants}.

(** Whenever [write_u32] returns, the value is in the field it was
    written to, and the other fields of the buffer are as they were. *)
Lemma write_u32_written (nso nso' : BytesIO) (off v : Z) (s s' : sys) :
  write_u32 nso off v s = (s', Ok nso') ->
  s' = s /\ 0 <= off /\
  (length (getvalue nso) <= length (getvalue nso'))%nat /\
  (Z.to_nat off + 4 <= length (getvalue nso'))%nat /\
  field (getvalue nso') (Z.to_nat off) = v /\
  forall off' : nat,
    (off' + 4 <= length (getvalue nso))%nat ->
    (off' + 4 <= Z.to_nat off \/ Z.to_nat off + 4 <= off')%nat ->
    field (getvalue nso') off' = field (getvalue nso) off'.
Proof.
  unfold write_u32. intros Hrun. inv_bind Hrun.
  assert (Hv : 0 <= v < 4294967296).
  { unfold pack_I, in_range in Hm.
    destruct (Z.leb_spec 0 v), (Z.ltb_spec v 4294967296); try done. }
  rewrite (pack_I_Ok v s Hv) in Hm. injection Hm as <- <-.
  pose proof (write_bytes_pure _ _ _ _ _ _ Hrun) as ->.
  apply write_bytes_written in Hrun as (H0 & Hlen & Hsame & Hother).
  cbn [length] in Hsame, Hother.
  split; [done|]. split; [done|]. split; [done|]. split; [|split].
  - apply (f_equal length) in Hsame. rewrite length_slice in Hsame.
    cbn [length] in Hsame. lia.
  - unfold field. rewrite Hsame. by apply unpack_pack_I.
  - intros off' Hin Hdisj. unfold field. by rewrite Hother.
Qed.

Lemma write_u8_written (nso nso' : BytesIO) (off v : Z) (s s' : sys) :
  write_u8 nso off v s = (s', Ok nso') ->
  s' = s /\ 0 <= off /\
  forall off' : nat,
    (off' + 4 <= length (getvalue nso))%nat ->
    (off' + 4 <= Z.to_nat off \/ Z.to_nat off + 1 <= off')%nat ->
    field (getvalue nso') off' = field (getvalue nso) off'.
Proof.
  unfold write_u8. intros Hrun. inv_bind Hrun.
  unfold pack_B in Hm. destruct (in_range 0 256 v); [|done].
  injection Hm as <- <-.
  pose proof (write_bytes_pure _ _ _ _ _ _ Hrun) as ->.
  apply write_bytes_written in Hrun as (H0 & Hlen & Hsame & Hother).
  cbn [length] in Hother.
  split; [done|]. split; [done|].
  intros off' Hin Hdisj. unfold field. by rewrite Hother.
Qed.

(** The image that [write_image] writes carries, in its three size
    fields, the lengths of the payloads it was given. *)
Lemma write_image_sizes nso hdrs ct cr cd output_path s s' :
  NSO_FLAGS_OFFSET < COMPRESSED_SEGMENT_NSO_OFFSET \/
    COMPRESSED_SEGMENT_NSO_OFFSET + 12 <= NSO_FLAGS_OFFSET ->
  write_image nso hdrs ct cr cd output_path s = (s', Ok tt) ->
  exists image,
    files s' = (output_path, FBytes image) :: files s /\
    field image (Z.to_nat COMPRESSED_SEGMENT_NSO_OFFSET) = len ct /\
    field image (Z.to_nat (COMPRESSED_SEGMENT_NSO_OFFSET + 4)) = len cr /\
    field image (Z.to_nat (COMPRESSED_SEGMENT_NSO_OFFSET + 8)) = len cd.
Proof.
  intros Hflags. unfold write_image. destruct hdrs as [[th rh] dh].
  intros Hrun. do 7 inv_bind Hrun.
  apply write_bytes_pure in Hm as ->.
  apply write_bytes_pure in Hm0 as ->.
  apply write_bytes_pure in Hm1 as ->.
  apply write_u32_written in Hm2 as (-> & Hc0 & Hl0 & Hf0 & Hv0 & _).
  apply write_u32_written in Hm3 as (-> & Hc1 & Hl1 & Hf1 & Hv1 & Ho1).
  apply write_u32_written in Hm4 as (-> & Hc2 & Hl2 & Hf2 & Hv2 & Ho2).
  apply write_u8_written in Hm5 as (-> & Hf & Hof).
  injection Hrun as <-. exists (getvalue a5). cbn [files].
  split; [done|].
  rewrite !Hof by lia. rewrite Hv2. rewrite !Ho2 by lia.
  rewrite Hv1. rewrite Ho1 by lia. rewrite Hv0. done.
Qed.

End Sizes.

(** ** C5: the layout of the start-flags blobs *)

Lemma write_at_end (raw : list Z) (f : BytesIO) :
  at_end f ->
  getvalue (write raw f) = getvalue f ++ raw /\ at_end (write raw f).
Proof.
  unfold at_end. intros Hend. destruct raw as [|b raw].
  - cbn [write]. by rewrite app_nil_r.
  - cbn [write getvalue tell]. rewrite Hend, Nat.sub_diag. cbn [replicate].
    rewrite app_nil_r. unfold overwrite.
    rewrite take_ge, drop_ge by lia. rewrite app_nil_r.
    split; [done|]. rewrite length_app. done.
Qed.

Lemma for_append {A} (xs : list A) (g : A -> Z) (acc : list Z) (s : sys) :
  for_ xs (fun x acc => ret (acc ++ [g x])) acc s = (s, Ok (acc ++ map g xs)).
Proof.
  revert acc. induction xs as [|x xs IH]; intros acc; cbn [for_ map].
  - by rewrite app_nil_r.
  - unfold bind, ret at 1. rewrite IH. by rewrite <- app_assoc.
Qed.

Lemma for_app {A S} (xs ys : list A) (body : A -> S -> M S) (acc : S) (s : sys) :
  for_ (xs ++ ys) body acc s = (acc' <- for_ xs body acc; for_ ys body acc') s.
Proof.
  revert acc s. induction xs as [|x xs IH]; intros acc s; [done|].
  cbn [for_ app]. unfold bind at 1 2 3.
  destruct (body x acc s) as [s1 [acc1|e]]; [|done]. rewrite IH. done.
Qed.

Lemma _get_flags_loop h (section : list flag_entry) (acc fl : list Z) (s s' : sys) :
  for_ section (fun flag flags =>
      match flag with
      | OnlyIfFlags condition guarded =>
          active <- evaluate_onlyif h condition;
          if active then
            for_ guarded (fun onlyif_flag flags => ret (flags ++ [onlyif_flag])) flags
          else ret flags
      | Flag flag => ret (flags ++ [flag])
      end) acc s = (s', Ok fl) ->
  fl = acc ++ resolved h section.
Proof.
  revert acc s. induction section as [|entry section IH]; intros acc s Hrun.
  - apply ret_Ok_inv in Hrun as [_ ->]. unfold resolved. cbn. by rewrite app_nil_r.
  - cbn [for_] in Hrun. inv_bind Hrun. apply IH in Hrun as ->.
    unfold resolved. cbn [map concat]. rewrite app_assoc. f_equal.
    destruct entry as [flag|condition guarded].
    + by apply ret_Ok_inv in Hm as [_ ->].
    + inv_bind Hm. unfold evaluate_onlyif in Hm0. injection Hm0 as <- Hgate.
      rewrite Hgate. destruct a0.
      * rewrite (for_append guarded id) in Hm. injection Hm as _ <-.
        by rewrite map_id.
      * apply ret_Ok_inv in Hm as [_ ->]. by rewrite app_nil_r.
Qed.

Section Layout.
Context {lz4 : Lz4Block} {fs : FsHelpers} {lawful : FsLawful fs}
  {asm : AsmConstants} {items : ItemConstants}.

(** [_get_flags] returns the flags that pass the gate. *)
Lemma _get_flags_resolved h section s s' fl :
  _get_flags section h s = (s', Ok fl) -> fl = resolved h section.
Proof. unfold _get_flags. intros Hrun. by apply _get_flags_loop in Hrun. Qed.

Lemma pack_H_u16_le v s s' raw :
  pack_H v s = (s', Ok raw) -> raw = u16_le v.
Proof.
  unfold pack_H, in_range, u16_le, byte_of.
  destruct (Z.leb_spec 0 v), (Z.ltb_spec v 65536); try done.
  intros [= _ <-]. change (256 ^ 0) with 1. change (256 ^ 1) with 256.
  rewrite Z.div_1_r. f_equal. f_equal. apply Z.mod_small.
  split; [apply Z.div_pos; lia | apply Z.div_lt_upper_bound; lia].
Qed.

Lemma write_u16_loop flags out out' s s' :
  at_end out ->
  for_ flags (fun flag out => raw <- pack_H flag; ret (write raw out)) out s
    = (s', Ok out') ->
  getvalue out' = getvalue out ++ concat (map u16_le flags) /\ at_end out'.
Proof.
  revert out s. induction flags as [|flag flags IH]; intros out s Hend Hrun.
  - apply ret_Ok_inv in Hrun as [_ ->]. cbn. by rewrite app_nil_r.
  - cbn [for_] in Hrun. bind_inv Hrun as out1 s1 Hbody.
    bind_inv Hbody as raw s2 Hpack.
    apply pack_H_u16_le in Hpack as ->. apply ret_Ok_inv in Hbody as [-> ->].
    destruct (write_at_end (u16_le flag) out Hend) as [Hval Hend'].
    apply IH in Hrun as [-> Hend'']; [|done].
    rewrite Hval. cbn [map concat]. by rewrite <- app_assoc.
Qed.

Lemma write_flags_layout flags h out out' s s' :
  at_end out ->
  write_flags flags h out s = (s', Ok out') ->
  getvalue out' = getvalue out ++ concat (map u16_le (resolved h flags)) /\
  at_end out'.
Proof.
  unfold write_flags. intros Hend Hrun. inv_bind Hrun.
  apply _get_flags_resolved in Hm as ->. by eapply write_u16_loop.
Qed.

Lemma write_pair_loop scene flags out out' s s' :
  at_end out ->
  for_ flags (fun flag out =>
      index <- dict_index SCENE_NAME_TO_SCENE_INDEX scene;
      raw <- pack_BB index flag;
      ret (write raw out)) out s = (s', Ok out') ->
  getvalue out' =
    getvalue out ++
    concat (map (fun '(scene_index, flag) => [scene_index; flag])
              (map (fun flag => (default 0 (SCENE_NAME_TO_SCENE_INDEX !! scene), flag))
                 flags)) /\
  at_end out'.
Proof.
  revert out s. induction flags as [|flag flags IH]; intros out s Hend Hrun.
  - apply ret_Ok_inv in Hrun as [_ ->]. cbn. by rewrite app_nil_r.
  - cbn [for_] in Hrun. bind_inv Hrun as out1 s1 Hbody.
    bind_inv Hbody as idx s2 Hidx. bind_inv Hbody as raw s3 Hpack.
    unfold dict_index in Hidx.
    destruct (SCENE_NAME_TO_SCENE_INDEX !! scene) as [index|] eqn:E; [|done].
    apply ret_Ok_inv in Hidx as [-> ->].
    unfold pack_BB in Hpack.
    destruct (in_range 0 256 index && in_range 0 256 flag); [|done].
    apply ret_Ok_inv in Hpack as [-> ->]. apply ret_Ok_inv in Hbody as [-> ->].
    destruct (write_at_end [index; flag] out Hend) as [Hval Hend'].
    apply IH in Hrun as [-> Hend'']; [|done].
    rewrite Hval. cbn [map concat default]. by rewrite <- app_assoc.
Qed.

Lemma write_scene_flags_layout sceneflags h out out' s s' :
  at_end out ->
  write_scene_flags sceneflags h out s = (s', Ok out') ->
  getvalue out' =
    getvalue out ++
    concat (map (fun '(scene_index, flag) => [scene_index; flag])
              (scene_pairs h sceneflags)) /\
  at_end out'.
Proof.
  unfold write_scene_flags.
  revert out s. induction sceneflags as [|[scene section] rest IH];
    intros out s Hend Hrun.
  - apply ret_Ok_inv in Hrun as [_ ->]. cbn. by rewrite app_nil_r.
  - cbn [for_] in Hrun. bind_inv Hrun as out1 s1 Hbody.
    bind_inv Hbody as flags s2 Hflags.
    apply _get_flags_resolved in Hflags as ->.
    apply write_pair_loop in Hbody as [Hval Hend']; [|done].
    apply IH in Hrun as [-> Hend'']; [|done].
    rewrite Hval. unfold scene_pairs. cbn [map concat].
    rewrite map_app, concat_app. by rewrite <- app_assoc.
Qed.

(** The blob that [serialize_startflags] returns has the four sections
    of the spec, in its order. *)
Lemma serialize_startflags_layout story sceneflags item dungeonflags h s s' out :
  serialize_startflags story sceneflags item dungeonflags h s = (s', Ok out) ->
  getvalue out =
    spec_startflags_blob (resolved h story) (scene_pairs h sceneflags)
      (resolved h item) (scene_pairs h dungeonflags).
Proof.
  unfold serialize_startflags. intros Hrun. do 4 inv_bind Hrun.
  apply ret_Ok_inv in Hrun as [_ ->].
  assert (Hend0 : at_end (BytesIO_new [])) by done.
  apply write_flags_layout in Hm as [V1 E1]; [|done].
  destruct (write_at_end [255; 255] a E1) as [V1' E1'].
  apply write_scene_flags_layout in Hm0 as [V2 E2]; [|done].
  destruct (write_at_end [255; 255] a0 E2) as [V2' E2'].
  apply write_flags_layout in Hm1 as [V3 E3]; [|done].
  destruct (write_at_end [255; 255] a1 E3) as [V3' E3'].
  apply write_scene_flags_layout in Hm2 as [V4 E4]; [|done].
  destruct (write_at_end [255; 255] a2 E4) as [V4' E4'].
  rewrite V4', V4, V3', V3, V2', V2, V1', V1. cbn [BytesIO_new getvalue app].
  unfold spec_startflags_blob, spec_u16_section, spec_pair_section.
  by rewrite <- !app_assoc.
Qed.

Lemma serialize_start_counts_layout counts s s' out :
  serialize_start_counts counts s = (s', Ok out) ->
  getvalue out = spec_counts_blob counts.
Proof.
  unfold serialize_start_counts. intros Hrun. inv_bind Hrun.
  apply ret_Ok_inv in Hrun as [_ ->].
  assert (Hloop : forall out0, at_end out0 ->
    for_ counts (fun '(counter, amount) out =>
        raw <- pack_HH counter amount; ret (write raw out)) out0 s = (s0, Ok a) ->
    getvalue a = getvalue out0 ++
      concat (map (fun '(counter_id, amount) => u16_le counter_id ++ u16_le amount) counts)
    /\ at_end a).
  { clear Hm. revert s. induction counts as [|[counter amount] counts IH];
      intros s out0 Hend Hrun.
    - apply ret_Ok_inv in Hrun as [_ ->]. cbn. by rewrite app_nil_r.
    - cbn [for_] in Hrun. bind_inv Hrun as out1 s1 Hbody.
      bind_inv Hbody as raw s2 Hpack.
      assert (raw = u16_le counter ++ u16_le amount /\ s2 = s) as [-> ->].
      { unfold pack_HH, in_range in Hpack.
        destruct (Z.leb_spec 0 counter), (Z.ltb_spec counter 65536),
          (Z.leb_spec 0 amount), (Z.ltb_spec amount 65536); try done.
        injection Hpack as <- <-. split; [|done].
        unfold u16_le, byte_of. change (256 ^ 0) with 1. change (256 ^ 1) with 256.
        rewrite !Z.div_1_r. cbn [app]. repeat f_equal.
        all: apply Z.mod_small;
          (split; [apply Z.div_pos; lia | apply Z.div_lt_upper_bound; lia]). }
      apply ret_Ok_inv in Hbody as [-> ->].
      destruct (write_at_end (u16_le counter ++ u16_le amount) out0 Hend)
        as [Hval Hend'].
      apply IH in Hrun as [-> Hend'']; [|done].
      rewrite Hval. cbn [map concat]. by rewrite <- !app_assoc. }
  apply Hloop in Hm as [V E]; [|done].
  destruct (write_at_end [255; 255; 255; 255] a E) as [V' _].
  rewrite V', V. done.
Qed.
End Layout.

Lemma cons_neq_self {A} (x : A) (l : list A) : l <> x :: l.
Proof. intros E. apply (f_equal length) in E. cbn in E. lia. Qed.

Section StartFlagsEffects.
Context {lz4 : Lz4Block} {fs : FsHelpers} {lawful : FsLawful fs}
  {asm : AsmConstants} {items : ItemConstants}.

Lemma preserves_add_flags {X} (f : sys -> X) v count flags :
  preserves f (add_flags v count flags).
Proof. unfold add_flags. effects. Qed.

Lemma preserves_add_start_count {X} (f : sys -> X) v count counts :
  preserves f (add_start_count v count counts).
Proof. unfold add_start_count, unpack3. effects. Qed.

Hint Resolve preserves_add_flags preserves_add_start_count : effects.

Lemma preserves_collect_items {X} (f : sys -> X) pool story item :
  preserves f (collect_items pool story item).
Proof. unfold collect_items. effects. Qed.

Lemma preserves_files_get_flags section h : preserves files (_get_flags section h).
Proof. unfold _get_flags. effects. Qed.

Hint Resolve preserves_files_get_flags : effects.

Lemma preserves_dict_index {X} (f : sys -> X) d k : preserves f (dict_index d k).
Proof. unfold dict_index. effects. Qed.

Hint Resolve preserves_dict_index : effects.

Lemma preserves_files_serialize_startflags story sceneflags item dungeonflags h :
  preserves files (serialize_startflags story sceneflags item dungeonflags h).
Proof.
  unfold serialize_startflags, write_flags, write_scene_flags. effects.
Qed.

Lemma preserves_serialize_start_counts {X} (f : sys -> X) counts :
  preserves f (serialize_start_counts counts).
Proof. unfold serialize_start_counts. effects. Qed.

(** C5. Whenever [patch_startflags] writes its diff file, the file maps
    SUBSDK_STARTFLAG_OFFSET to the blob made of, in this order, the story
    flags as little-endian u16 and 0xFFFF, the scene flags as
    (scene index, flag) byte pairs and 0xFFFF, the item flags as
    little-endian u16 and 0xFFFF, the dungeon flags as byte pairs and
    0xFFFF, and SUBSDK_START_COUNTS_OFFSET to the (counter, amount)
    little-endian u16 pairs closed by 0xFFFFFFFF; the flags are those
    that pass the gate, after the items of the pool were collected. *)
Theorem startflags_blob_layout output_path startflags pool h s s' r doc :
  patch_startflags output_path startflags pool h s = (s', r) ->
  files s' = (output_path, FYaml doc) :: files s ->
  exists story item counts,
    collect_items pool (Storyflags startflags) (Itemflags startflags) s
      = (s, Ok (story, item, counts)) /\
    doc = odict_update
            [(SUBSDK_STARTFLAG_OFFSET,
              spec_startflags_blob (resolved h story)
                (scene_pairs h (Sceneflags startflags))
                (resolved h item)
                (scene_pairs h (Dungeonflags startflags)))]
            [(SUBSDK_START_COUNTS_OFFSET, spec_counts_blob counts)].
Proof.
  unfold patch_startflags. intros Hrun Hfiles.
  unfold bind at 1 in Hrun.
  destruct (collect_items _ _ _ s) as [s1 [[[story item] counts]|e]] eqn:E1.
  2:{ injection Hrun as <- _.
      apply (preserves_collect_items files) in E1.
      rewrite E1 in Hfiles. by apply cons_neq_self in Hfiles. }
  pose proof (preserves_collect_items id _ _ _ _ _ _ E1) as Hs1.
  cbn [id] in Hs1. subst s1.
  unfold bind at 1 in Hrun.
  destruct (serialize_startflags _ _ _ _ _ s) as [s2 [blob|e]] eqn:E2.
  2:{ injection Hrun as <- _.
      apply preserves_files_serialize_startflags in E2.
      rewrite E2 in Hfiles. by apply cons_neq_self in Hfiles. }
  unfold bind at 1 in Hrun.
  destruct (serialize_start_counts _ s2) as [s3 [cblob|e]] eqn:E3.
  2:{ injection Hrun as <- _.
      apply (preserves_serialize_start_counts files) in E3.
      apply preserves_files_serialize_startflags in E2.
      rewrite E3, E2 in Hfiles. by apply cons_neq_self in Hfiles. }
  apply (preserves_serialize_start_counts files) in E3 as F3.
  apply preserves_files_serialize_startflags in E2 as F2.
  apply serialize_startflags_layout in E2.
  apply serialize_start_counts_layout in E3.
  exists story, item, counts. split; [done|].
  unfold bind, yaml_write, assert in Hrun.
  assert (files s' = (output_path,
            FYaml (odict_update [(SUBSDK_STARTFLAG_OFFSET, getvalue blob)]
                     [(SUBSDK_START_COUNTS_OFFSET, getvalue cblob)])) :: files s3)
    as Hs'.
  { destruct (len (getvalue blob) <? MAX_STARTFLAGS); by injection Hrun as <- _. }
  rewrite Hs', F3, F2 in Hfiles. injection Hfiles as <-.
  by rewrite E2, E3.
Qed.
End StartFlagsEffects.

(** ** C4: the capacity check *)

(** Runs the left-hand side of an equation whose right-hand side is still
    to be filled in. *)
Ltac run_lhs :=
  match goal with
  | |- ?lhs = _ => let v := eval vm_compute in lhs in
                   transitivity v; [vm_compute; reflexivity | reflexivity]
  end.

Section Capacity.
Context {lz4 : Lz4Block} {fs : FsHelpers} {lawful : FsLawful fs}
  {asm : AsmConstants} {items : ItemConstants}.

(** C4, as the code has it.  When the flag sections and the start counts
    serialize and the four flag sections with their sentinels take
    MAX_STARTFLAGS bytes or more, [patch_startflags] raises the capacity
    error (AssertionError); the check comes after [yaml_write], so the
    diff file is on [output_path] when the error is raised. *)
Theorem capacity_error_after_write output_path startflags pool h
    s s1 s2 s3 story item counts blob cblob :
  collect_items pool (Storyflags startflags) (Itemflags startflags) s
    = (s1, Ok (story, item, counts)) ->
  serialize_startflags story (Sceneflags startflags) item
    (Dungeonflags startflags) h s1 = (s2, Ok blob) ->
  serialize_start_counts counts s2 = (s3, Ok cblob) ->
  MAX_STARTFLAGS <= len (getvalue blob) ->
  exists s',
    patch_startflags output_path startflags pool h s = (s', Raise AssertionError) /\
    files s' =
      (output_path,
       FYaml (odict_update [(SUBSDK_STARTFLAG_OFFSET, getvalue blob)]
                [(SUBSDK_START_COUNTS_OFFSET, getvalue cblob)])) :: files s.
Proof.
  intros E1 E2 E3 Hfull. unfold patch_startflags.
  rewrite (bind_Ok _ _ _ _ _ E1). cbv beta iota.
  rewrite (bind_Ok _ _ _ _ _ E2). cbv beta.
  rewrite (bind_Ok _ _ _ _ _ E3). cbv beta zeta.
  unfold bind, yaml_write, assert.
  destruct (Z.ltb_spec (len (getvalue blob)) MAX_STARTFLAGS); [lia|].
  eexists. split; [reflexivity|]. cbn [files]. f_equal.
  rewrite (preserves_serialize_start_counts files _ _ _ _ E3).
  rewrite (preserves_files_serialize_startflags _ _ _ _ _ _ _ _ E2).
  by rewrite (preserves_collect_items files _ _ _ _ _ _ E1).
Qed.
End Capacity.

Lemma capacity_error_after_write_witness :
  exists s',
    patch_startflags (asm := Example.asm) (items := Example.items)
      "startflags-diff.yaml" Example.startflags Example.pool Example.handler
      Example.start = (s', Raise AssertionError) /\
    files s' =
      [("startflags-diff.yaml"%string,
        FYaml [(1000, [1; 0; 2; 0; 3; 0; 44; 1; 45; 1; 255; 255; 3; 9; 255; 255;
                       10; 0; 11; 0; 5; 0; 255; 255; 255; 255]);
               (2000, [2; 0; 20; 0; 255; 255; 255; 255])])].
Proof.
  apply (@capacity_error_after_write Example.asm Example.items
           "startflags-diff.yaml" Example.startflags Example.pool Example.handler
           Example.start Example.start
           {| files := []; queried := ["a"; "b"]%string |}
           {| files := []; queried := ["a"; "b"]%string |}
           [Flag 1; OnlyIfFlags "a" [2; 3]; OnlyIfFlags "b" [4]; Flag 300; Flag 301]
           [Flag 10; Flag 11; Flag 5] [(2, 20)]
           {| getvalue := [1; 0; 2; 0; 3; 0; 44; 1; 45; 1; 255; 255; 3; 9; 255; 255;
                           10; 0; 11; 0; 5; 0; 255; 255; 255; 255];
              tell := 26 |}
           {| getvalue := [2; 0; 20; 0; 255; 255; 255; 255]; tell := 8 |});
    vm_compute; first [reflexivity | discriminate].
Defined.

(** Against C4 as stated: here the four flag sections take 26 bytes, the
    capacity is 16, and the capacity error is raised with the diff file
    already written. *)
Lemma capacity_error_no_output_counterexample :
  exists s' blob cblob,
    patch_startflags (asm := Example.asm) (items := Example.items)
      "startflags-diff.yaml" Example.startflags Example.pool Example.handler
      Example.start = (s', Raise AssertionError) /\
    files s' = [("startflags-diff.yaml"%string, FYaml [(1000, blob); (2000, cblob)])] /\
    MAX_STARTFLAGS (AsmConstants := Example.asm) <= len blob /\
    files s' <> files Example.start.
Proof.
  eexists _, _, _. split; [run_lhs|]. split; [reflexivity|].
  split; [vm_compute|]; discriminate.
Qed.


(** ** C9 and C10: entries missing from the tables, and falsy entries *)

Lemma raises_bind_l {A B} (m : M A) (k : A -> M B) : raises m -> raises (bind m k).
Proof.
  intros Hm s. destruct (Hm s) as (s' & e & E). exists s', e. by apply bind_Raise.
Qed.

Lemma raises_bind_r {A B} (m : M A) (k : A -> M B) :
  (forall a, raises (k a)) -> raises (bind m k).
Proof.
  intros Hk s. unfold bind. destruct (m s) as [s1 [a|e]]; [apply Hk | eauto].
Qed.

Lemma bind_ext {A B} (m : M A) (k1 k2 : A -> M B) (s : sys) :
  (forall a s1, k1 a s1 = k2 a s1) -> bind m k1 s = bind m k2 s.
Proof. intros Hk. unfold bind. destruct (m s) as [s1 [a|e]]; [apply Hk | done]. Qed.

Lemma raises_for {A S} (body : A -> S -> M S) (xs : list A) (x : A) :
  x ∈ xs -> (forall acc, raises (body x acc)) -> forall acc, raises (for_ xs body acc).
Proof.
  intros Hin Hx acc s.
  apply (for_raises (fun _ => True) body xs x Hin); [done| |done].
  intros acc' s1 _. apply Hx.
Qed.

Section Tables.
Context {lz4 : Lz4Block} {fs : FsHelpers} {lawful : FsLawful fs}
  {asm : AsmConstants} {items : ItemConstants}.

(** A table value that is not truthy adds no flag and no count. *)
Lemma add_flags_falsy v count flags s :
  truthy v = false -> add_flags v count flags s = (s, Ok flags).
Proof. intros Hv. unfold add_flags. by rewrite Hv. Qed.

Lemma add_start_count_falsy v count counts s :
  truthy v = false -> add_start_count v count counts s = (s, Ok counts).
Proof. intros Hv. unfold add_start_count. by rewrite Hv. Qed.

Lemma dict_get_False_missing (tbl : gmap string pyval) name :
  tbl !! name = None -> dict_get_False tbl name = PyFalse.
Proof. intros E. unfold dict_get_False. by rewrite E. Qed.

(** A scene that has a flag to emit and no index raises. *)
Lemma write_scene_flags_missing sceneflags h scene section :
  (scene, section) ∈ sceneflags ->
  SCENE_NAME_TO_SCENE_INDEX !! scene = None ->
  resolved h section <> [] ->
  forall out, raises (write_scene_flags sceneflags h out).
Proof.
  intros Hin Hmiss Hflags. unfold write_scene_flags.
  apply (raises_for _ sceneflags _ Hin). intros out s.
  unfold bind at 1.
  destruct (_get_flags section h s) as [s1 [fl|e]] eqn:E; [|eauto].
  apply _get_flags_resolved in E as ->.
  destruct (resolved h section) as [|flag fl]; [done|].
  cbn [for_]. exists s1, KeyError.
  apply bind_Raise. apply bind_Raise. unfold dict_index. by rewrite Hmiss.
Qed.

Lemma serialize_startflags_missing story sceneflags item dungeonflags h scene section :
  (scene, section) ∈ sceneflags \/ (scene, section) ∈ dungeonflags ->
  SCENE_NAME_TO_SCENE_INDEX !! scene = None ->
  resolved h section <> [] ->
  raises (serialize_startflags story sceneflags item dungeonflags h).
Proof.
  intros [Hin|Hin] Hmiss Hflags; unfold serialize_startflags.
  - apply raises_bind_r. intros out1. apply raises_bind_l.
    by eapply write_scene_flags_missing.
  - apply raises_bind_r. intros out1. apply raises_bind_r. intros out2.
    apply raises_bind_r. intros out3. apply raises_bind_l.
    by eapply write_scene_flags_missing.
Qed.

(** C9, as the code has it.  An item that is missing from the item-flag,
    the story-flag or the counter table is not an error: the lookup
    defaults to False, the item takes nothing from that table, and an
    item missing from all three leaves the collected flags and counts as
    they are without it.  A scene of the scene-flag or dungeon-flag
    section that is missing from the scene-index table and has at least
    one flag to emit makes the assembly raise, with no file written. *)
Theorem missing_table_entries :
  (forall name count s,
     (ITEM_ITEMFLAGS !! name = None ->
      forall flags, add_flags (dict_get_False ITEM_ITEMFLAGS name) count flags s
                    = (s, Ok flags)) /\
     (ITEM_STORYFLAGS !! name = None ->
      forall flags, add_flags (dict_get_False ITEM_STORYFLAGS name) count flags s
                    = (s, Ok flags)) /\
     (ITEM_COUNTS !! name = None ->
      forall counts, add_start_count (dict_get_False ITEM_COUNTS name) count counts s
                     = (s, Ok counts)) /\
     (ITEM_ITEMFLAGS !! name = None -> ITEM_STORYFLAGS !! name = None ->
      ITEM_COUNTS !! name = None ->
      forall before after story item,
        collect_items (before ++ (name, count) :: after) story item s =
        collect_items (before ++ after) story item s)) /\
  (forall output_path startflags pool h s scene section,
     (scene, section) ∈ Sceneflags startflags \/
       (scene, section) ∈ Dungeonflags startflags ->
     SCENE_NAME_TO_SCENE_INDEX !! scene = None ->
     resolved h section <> [] ->
     exists s' e,
       patch_startflags output_path startflags pool h s = (s', Raise e) /\
       files s' = files s).
Proof.
  split.
  - intros name count s. repeat split.
    + intros E flags. rewrite dict_get_False_missing by done.
      by apply add_flags_falsy.
    + intros E flags. rewrite dict_get_False_missing by done.
      by apply add_flags_falsy.
    + intros E counts. rewrite dict_get_False_missing by done.
      by apply add_start_count_falsy.
    + intros E1 E2 E3 before after story item. unfold collect_items.
      rewrite !for_app. apply bind_ext. intros [[st it] cn] s1.
      cbn [for_]. rewrite !dict_get_False_missing by done.
      erewrite bind_Ok; [reflexivity|].
      rewrite (bind_Ok _ _ _ _ _ (add_flags_falsy PyFalse count it s1 eq_refl)).
      rewrite (bind_Ok _ _ _ _ _ (add_flags_falsy PyFalse count st s1 eq_refl)).
      rewrite (bind_Ok _ _ _ _ _ (add_start_count_falsy PyFalse count cn s1 eq_refl)).
      done.
  - intros output_path startflags pool h s scene section Hin Hmiss Hflags.
    unfold patch_startflags. unfold bind at 1.
    destruct (collect_items _ _ _ s) as [s1 [[[story item] counts]|e]] eqn:E1.
    + destruct (serialize_startflags_missing story (Sceneflags startflags) item
                  (Dungeonflags startflags) h scene section Hin Hmiss Hflags s1)
        as (s2 & e & E2).
      exists s2, e. rewrite (bind_Raise _ _ _ _ _ E2). split; [done|].
      rewrite (preserves_files_serialize_startflags _ _ _ _ _ _ _ _ E2).
      by rewrite (preserves_collect_items files _ _ _ _ _ _ E1).
    + exists s1, e. split; [done|].
      by rewrite (preserves_collect_items files _ _ _ _ _ _ E1).
Qed.

(** C10. A table value that is not truthy (in particular the int 0, an
    empty list and an empty tuple) makes the item take nothing from that
    table, flags or counter amounts, exactly as when the table has no
    entry for the item. *)
Theorem falsy_table_value (tbl : gmap string pyval) name v count s :
  tbl !! name = Some v -> truthy v = false ->
  (forall flags,
     add_flags (dict_get_False tbl name) count flags s = (s, Ok flags) /\
     add_flags (dict_get_False tbl name) count flags s =
     add_flags (dict_get_False (delete name tbl) name) count flags s) /\
  (forall counts,
     add_start_count (dict_get_False tbl name) count counts s = (s, Ok counts) /\
     add_start_count (dict_get_False tbl name) count counts s =
     add_start_count (dict_get_False (delete name tbl) name) count counts s) /\
  truthy (PyInt 0) = false /\ truthy (PyList []) = false /\
  truthy (PyTuple []) = false.
Proof.
  intros E Hv. unfold dict_get_False. rewrite E, lookup_delete_eq. cbn [default].
  repeat split.
  - by apply add_flags_falsy.
  - by rewrite !add_flags_falsy.
  - by apply add_start_count_falsy.
  - by rewrite !add_start_count_falsy.
Qed.
End Tables.

(** Against C9 as stated: the item [Junk] is in none of the three tables,
    and the assembly returns and writes its diff file. *)
Lemma missing_item_not_fatal_counterexample :
  ITEM_ITEMFLAGS (ItemConstants := Example.items) !! "Junk"%string = None /\
  ITEM_STORYFLAGS (ItemConstants := Example.items) !! "Junk"%string = None /\
  ITEM_COUNTS (ItemConstants := Example.items) !! "Junk"%string = None /\
  patch_startflags (asm := Example.asm) (items := Example.items)
    "startflags-diff.yaml" Example.empty_startflags [("Junk"%string, 4)]
    Example.handler Example.start =
  ({| files := [("startflags-diff.yaml"%string,
                 FYaml [(1000, [255; 255; 255; 255; 255; 255; 255; 255]);
                        (2000, [255; 255; 255; 255])])];
      queried := [] |}, Ok tt).
Proof. vm_compute. done. Qed.

(** ** The statements at work on the example *)



Lemma write_patch_classifies_witness :
  exists t',
    write_patch (fs := checked_fs) (KInt 2) Example.offsets (BytesIO_new Example.text)
      (BytesIO_new Example.rodata) (BytesIO_new Example.data) [255; 254]
      Example.start
    = (Example.start, Ok (t', BytesIO_new Example.rodata, BytesIO_new Example.data)) /\
    overwritten Example.text (getvalue t') 2 [255; 254].
Proof.
  destruct (write_patch_classifies (fs := checked_fs) (lawful := checked_fs_lawful)
              Example.offsets (BytesIO_new Example.text)
              (BytesIO_new Example.rodata) (BytesIO_new Example.data)
              2 [255; 254] Example.start) as (Htext & _ & _).
  - vm_compute. done.
  - reflexivity.
  - apply Htext; vm_compute; first [reflexivity | discriminate].
Defined.



Lemma startflags_blob_layout_witness :
  exists story item counts,
    collect_items (items := Example.items) Example.pool
      (Storyflags Example.startflags) (Itemflags Example.startflags) Example.start
      = (Example.start, Ok (story, item, counts)) /\
    [(1000, [1; 0; 2; 0; 3; 0; 44; 1; 45; 1; 255; 255; 3; 9; 255; 255;
             10; 0; 11; 0; 5; 0; 255; 255; 255; 255]);
     (2000, [2; 0; 20; 0; 255; 255; 255; 255])] =
    odict_update
      [(1000, spec_startflags_blob (resolved Example.handler story)
                (scene_pairs (asm := Example.asm) Example.handler
                   (Sceneflags Example.startflags))
                (resolved Example.handler item)
                (scene_pairs (asm := Example.asm) Example.handler
                   (Dungeonflags Example.startflags)))]
      [(2000, spec_counts_blob counts)].
Proof.
  eapply (@startflags_blob_layout Example.asm Example.items "startflags-diff.yaml"
            Example.startflags Example.pool Example.handler Example.start).
  - run_lhs.
  - reflexivity.
Defined.

Lemma missing_table_entries_witness :
  exists s' e,
    patch_startflags (asm := Example.asm) (items := Example.items) "startflags-diff.yaml"
      {| Storyflags := []; Sceneflags := [("Faron Woods"%string, [Flag 1])];
         Itemflags := []; Dungeonflags := [] |}
      Example.pool Example.handler Example.start = (s', Raise e) /\
    files s' = files Example.start.
Proof.
  destruct (@missing_table_entries Example.asm Example.items) as [_ Hscene].
  apply (Hscene _ _ _ _ _ "Faron Woods"%string [Flag 1]).
  - left. apply list_elem_of_here.
  - reflexivity.
  - discriminate.
Defined.

Lemma falsy_table_value_witness :
  add_flags (dict_get_False (ITEM_ITEMFLAGS (ItemConstants := Example.items)) "Map")
    1 [Flag 7] Example.start = (Example.start, Ok [Flag 7]).
Proof.
  destruct (falsy_table_value (ITEM_ITEMFLAGS (ItemConstants := Example.items))
              "Map" (PyInt 0) 1 Example.start) as (Hflags & _).
  - reflexivity.
  - reflexivity.
  - apply Hflags.
Defined.

(** * Further properties of the handler *)

(** ** The diff applier: malformed entries *)

Section Malformed.
Context {lz4 : Lz4Block} {fs : FsHelpers} {asm : AsmConstants} {items : ItemConstants}.

(** A payload with a value outside range(256) is refused by [bytes(data)]:
    [write_patch] raises ValueError before it writes anything, wherever
    the address falls. *)
Theorem write_patch_invalid_byte offsets t r d a payload s :
  forallb (in_range 0 256) payload = false ->
  write_patch (KInt a) offsets t r d payload s = (s, Raise ValueError).
Proof.
  intros Hbad. unfold write_patch, key_lt, key_sub, bytes_of. rewrite Hbad.
  destruct (a <? get_rodata_offset offsets);
    [|destruct (a <? get_data_offset offsets)]; reflexivity.
Qed.

Lemma write_patch_KStr name offsets t r d payload s :
  write_patch (KStr name) offsets t r d payload s = (s, Raise TypeError).
Proof. reflexivity. Qed.

(** Nesting stops at one level: a group whose condition holds and that
    has a key that is not an integer address (a nested condition name)
    raises, and writes no file. *)
Theorem nested_condition_raises {lawful : FsLawful fs} h offsets cond nested
    name data segs s :
  gate h cond = Ok true ->
  (KStr name, data) ∈ nested ->
  exists s' e,
    apply_entry h offsets (OnlyIf cond nested) segs s = (s', Raise e) /\
    files s' = files s.
Proof.
  intros Hgate Hin.
  assert (exists s' e, apply_entry h offsets (OnlyIf cond nested) segs s = (s', Raise e))
    as (s' & e & Hrun).
  { cbn [apply_entry].
    erewrite bind_Ok; [|unfold evaluate_onlyif; by rewrite Hgate].
    apply (for_raises (fun _ => True) _ nested _ Hin); [done| |done].
    intros [[t r] d] s1 _. exists s1, TypeError. apply write_patch_KStr. }
  exists s', e. split; [done|].
  by apply preserves_files_apply_entry in Hrun.
Qed.
End Malformed.

Lemma write_patch_invalid_byte_witness :
  write_patch (fs := checked_fs) (KInt 2) Example.offsets (BytesIO_new Example.text)
    (BytesIO_new Example.rodata) (BytesIO_new Example.data) [1; 256] Example.start
  = (Example.start, Raise ValueError).
Proof. apply (write_patch_invalid_byte (fs := checked_fs)). reflexivity. Defined.

Lemma nested_condition_raises_witness :
  exists s' e,
    apply_entry (fs := checked_fs) Example.handler Example.offsets
      (OnlyIf "a" [(KInt 2, [1]); (KStr "b", [5])])
      (BytesIO_new Example.text, BytesIO_new Example.rodata, BytesIO_new Example.data)
      Example.start = (s', Raise e) /\
    files s' = files Example.start.
Proof.
  apply (nested_condition_raises (fs := checked_fs) (lawful := checked_fs_lawful)
           Example.handler Example.offsets "a" _ "b" [5]).
  - reflexivity.
  - apply list_elem_of_further, list_elem_of_here.
Defined.

(** ** The diff applier: what a run asks and what it writes *)

Lemma for_queried {A S} (names : A -> list string) (body : A -> S -> M S)
    (xs : list A) :
  (forall x acc s s' acc',
     body x acc s = (s', Ok acc') -> queried s' = queried s ++ names x) ->
  forall acc s s' acc',
    for_ xs body acc s = (s', Ok acc') ->
    queried s' = queried s ++ concat (map names xs).
Proof.
  intros Hbody. induction xs as [|x xs IH]; intros acc s s' acc' Hrun.
  - apply ret_Ok_inv in Hrun as [-> _]. cbn. by rewrite app_nil_r.
  - cbn [for_] in Hrun. bind_inv Hrun as acc1 s1 Hx.
    apply Hbody in Hx. apply IH in Hrun. rewrite Hrun, Hx.
    cbn [map concat]. by rewrite app_assoc.
Qed.

Lemma conditions_app (xs ys : list diff_entry) :
  conditions (xs ++ ys) = conditions xs ++ conditions ys.
Proof. unfold conditions. by rewrite map_app, concat_app. Qed.

Lemma conditions_concat (diff_files : list (list diff_entry)) :
  concat (map conditions diff_files) = conditions (concat diff_files).
Proof.
  induction diff_files as [|file rest IH]; [done|].
  cbn [map concat]. by rewrite conditions_app, IH.
Qed.

Lemma conditions_entries (file : list diff_entry) :
  concat (map (fun entry => conditions [entry]) file) = conditions file.
Proof.
  induction file as [|entry file IH]; [done|].
  cbn [map concat]. rewrite IH. symmetry. apply (conditions_app [entry] file).
Qed.

Section Queries.
Context {lz4 : Lz4Block} {fs : FsHelpers} {lawful : FsLawful fs}
  {asm : AsmConstants} {items : ItemConstants}.

Lemma apply_entry_queried h offsets entry segs s s' segs' :
  apply_entry h offsets entry segs s = (s', Ok segs') ->
  queried s' = queried s ++ conditions [entry].
Proof.
  destruct entry as [a payload|cond nested]; cbn [apply_entry]; intros Hrun.
  - destruct segs as [[t r] d].
    apply (preserves_write_patch queried) in Hrun. rewrite Hrun.
    cbn. by rewrite app_nil_r.
  - bind_inv Hrun as active s1 Hgate.
    unfold evaluate_onlyif in Hgate. injection Hgate as <- _.
    assert (queried s' = queried s ++ [cond]) as ->; [|done].
    destruct active.
    + apply preserves_queried_nested in Hrun. by rewrite Hrun.
    + by apply ret_Ok_inv in Hrun as [-> _].
Qed.

(** A run of the diff files that returns has sent to the condition gate
    exactly the names of the groups of the files, one query each, in the
    order of the files and of their entries; plain patches ask nothing,
    and no file is written. *)
Theorem apply_diffs_queries h offsets diff_files segs s s' segs' :
  apply_diffs h offsets diff_files segs s = (s', Ok segs') ->
  queried s' = queried s ++ conditions (concat diff_files) /\
  files s' = files s.
Proof.
  intros Hrun. split; [|by apply preserves_files_apply_diffs in Hrun].
  unfold apply_diffs in Hrun.
  apply (for_queried conditions) in Hrun.
  - by rewrite Hrun, conditions_concat.
  - intros file acc s1 s2 acc' Hfile.
    apply (for_queried (fun entry => conditions [entry])) in Hfile.
    + by rewrite Hfile, conditions_entries.
    + intros entry acc1 s3 s4 acc2. apply apply_entry_queried.
Qed.
End Queries.

Lemma apply_diffs_queries_witness :
  exists s' segs',
    apply_diffs (fs := checked_fs) Example.handler Example.offsets
      [[Patch 2 [255]; OnlyIf "a" [(KInt 101, [1])]]; [OnlyIf "b" [(KInt 900, [1])]]]
      (BytesIO_new Example.text, BytesIO_new Example.rodata, BytesIO_new Example.data)
      Example.start = (s', Ok segs') /\
    queried s' = ["a"; "b"]%string /\ files s' = [].
Proof.
  eexists _, _.
  assert (forall P Q : Prop, P -> (P -> Q) -> P /\ Q) as Hboth by tauto.
  apply Hboth; [run_lhs|]. intros Hrun.
  apply (apply_diffs_queries (fs := checked_fs) (lawful := checked_fs_lawful)
           _ _ _ _ _ _ _ Hrun).
Defined.

(** ** The diff applier: writes inside the segments *)

Lemma overwrite_overwrite (buf p1 p2 : list Z) (off : nat) :
  (length p1 <= length p2)%nat ->
  (off + length p2 <= length buf)%nat ->
  overwrite (overwrite buf off p1) off p2 = overwrite buf off p2.
Proof.
  intros Hle Hfit. apply list_eq. intros i.
  assert (length (overwrite buf off p1) = length buf) as Hlen
    by (apply length_overwrite; lia).
  rewrite !lookup_overwrite by lia.
  repeat case_decide; try done; lia.
Qed.

Lemma overwrite_comm (buf p1 p2 : list Z) (off1 off2 : nat) :
  (off1 + length p1 <= off2 \/ off2 + length p2 <= off1)%nat ->
  (off1 + length p1 <= length buf)%nat ->
  (off2 + length p2 <= length buf)%nat ->
  overwrite (overwrite buf off1 p1) off2 p2 =
  overwrite (overwrite buf off2 p2) off1 p1.
Proof.
  intros Hdisj Hfit1 Hfit2. apply list_eq. intros i.
  assert (length (overwrite buf off1 p1) = length buf) as Hlen1
    by (apply length_overwrite; lia).
  assert (length (overwrite buf off2 p2) = length buf) as Hlen2
    by (apply length_overwrite; lia).
  rewrite !lookup_overwrite by lia.
  repeat case_decide; try done; lia.
Qed.

Lemma fits_patched offsets c a payload a' payload' :
  fits offsets c a payload -> fits offsets c a' payload' ->
  fits offsets (patched offsets c a payload) a' payload'.
Proof.
  destruct c as [[t r] d]. unfold fits, patched, len.
  destruct (a <? get_rodata_offset offsets) eqn:E1;
    [|destruct (a <? get_data_offset offsets) eqn:E2];
    intros Hfit;
    (destruct (a' <? get_rodata_offset offsets);
     [|destruct (a' <? get_data_offset offsets)]);
    try done; rewrite length_overwrite by lia; done.
Qed.

Section InBounds.
Context {lz4 : Lz4Block} {fs : FsHelpers} {lawful : FsLawful fs}
  {asm : AsmConstants} {items : ItemConstants}.

(** Inside the segment, [write_patch] lays the payload over the segment
    the address falls in and leaves the other two buffers alone. *)
Lemma write_patch_patched offsets t r d a payload s :
  forallb (in_range 0 256) payload = true ->
  get_rodata_offset offsets <= get_data_offset offsets ->
  fits offsets (contents (t, r, d)) a payload ->
  exists segs',
    write_patch (KInt a) offsets t r d payload s = (s, Ok segs') /\
    contents segs' = patched offsets (contents (t, r, d)) a payload.
Proof.
  intros Hbytes Hasc. unfold fits, patched, contents, write_patch, key_lt, key_sub.
  destruct (Z.ltb_spec a (get_rodata_offset offsets)) as [H1|H1];
    [|destruct (Z.ltb_spec a (get_data_offset offsets)) as [H2|H2]];
    intros Hfit; cbn [bind ret];
    rewrite (bind_Ok _ _ _ _ _ (bytes_of_Ok payload s Hbytes)).
  - destruct Hfit as [H0 Hfit].
    destruct (write_bytes_in_bounds t _ payload s H0 Hfit) as (t' & Hw & Hv).
    exists (t', r, d). rewrite (bind_Ok _ _ _ _ _ Hw). by rewrite Hv.
  - destruct (write_bytes_in_bounds r (a - get_rodata_offset offsets) payload s)
      as (r' & Hw & Hv); [lia | done |].
    exists (t, r', d). rewrite (bind_Ok _ _ _ _ _ Hw). by rewrite Hv.
  - destruct (write_bytes_in_bounds d (a - get_data_offset offsets) payload s)
      as (d' & Hw & Hv); [lia | done |].
    exists (t, r, d'). rewrite (bind_Ok _ _ _ _ _ Hw). by rewrite Hv.
Qed.

(** Last write wins: two patches of the same diff run at the same
    address, the second at least as long as the first, leave the three
    segments as the second patch alone would. *)
Theorem last_write_wins h offsets segs a p1 p2 s :
  get_rodata_offset offsets <= get_data_offset offsets ->
  forallb (in_range 0 256) p1 = true -> forallb (in_range 0 256) p2 = true ->
  len p1 <= len p2 ->
  fits offsets (contents segs) a p2 ->
  exists both second,
    for_ [Patch a p1; Patch a p2] (apply_entry h offsets) segs s = (s, Ok both) /\
    for_ [Patch a p2] (apply_entry h offsets) segs s = (s, Ok second) /\
    contents both = contents second.
Proof.
  intros Hasc Hb1 Hb2 Hle Hfit2. destruct segs as [[t r] d].
  assert (Hfit1 : fits offsets (contents (t, r, d)) a p1).
  { revert Hfit2. unfold fits, contents.
    destruct (a <? get_rodata_offset offsets);
      [|destruct (a <? get_data_offset offsets)]; lia. }
  destruct (write_patch_patched offsets t r d a p1 s Hb1 Hasc Hfit1)
    as ([[t1 r1] d1] & Hw1 & Hc1).
  destruct (write_patch_patched offsets t1 r1 d1 a p2 s Hb2 Hasc)
    as (both & Hw12 & Hc12).
  { rewrite Hc1. by apply fits_patched. }
  destruct (write_patch_patched offsets t r d a p2 s Hb2 Hasc Hfit2)
    as (second & Hw2 & Hc2).
  exists both, second. cbn [for_ apply_entry].
  rewrite (bind_Ok _ _ _ _ _ Hw1). cbv beta.
  rewrite (bind_Ok _ _ _ _ _ Hw12), (bind_Ok _ _ _ _ _ Hw2).
  repeat split. rewrite Hc12, Hc2, Hc1.
  revert Hfit2. unfold fits, patched, contents, len in *.
  destruct (Z.ltb_spec a (get_rodata_offset offsets));
    [|destruct (Z.ltb_spec a (get_data_offset offsets))];
    intros Hfit2; rewrite overwrite_overwrite; try done; lia.
Qed.

(** Patches over ranges of addresses that do not meet can be applied in
    either order: the three segments end up the same. *)
Theorem disjoint_patches_commute h offsets segs a1 p1 a2 p2 s :
  get_rodata_offset offsets <= get_data_offset offsets ->
  forallb (in_range 0 256) p1 = true -> forallb (in_range 0 256) p2 = true ->
  a1 + len p1 <= a2 \/ a2 + len p2 <= a1 ->
  fits offsets (contents segs) a1 p1 ->
  fits offsets (contents segs) a2 p2 ->
  exists one other,
    for_ [Patch a1 p1; Patch a2 p2] (apply_entry h offsets) segs s = (s, Ok one) /\
    for_ [Patch a2 p2; Patch a1 p1] (apply_entry h offsets) segs s = (s, Ok other) /\
    contents one = contents other.
Proof.
  intros Hasc Hb1 Hb2 Hdisj Hfit1 Hfit2. destruct segs as [[t r] d].
  destruct (write_patch_patched offsets t r d a1 p1 s Hb1 Hasc Hfit1)
    as ([[t1 r1] d1] & Hw1 & Hc1).
  destruct (write_patch_patched offsets t1 r1 d1 a2 p2 s Hb2 Hasc)
    as (one & Hw12 & Hc12).
  { rewrite Hc1. by apply fits_patched. }
  destruct (write_patch_patched offsets t r d a2 p2 s Hb2 Hasc Hfit2)
    as ([[t2 r2] d2] & Hw2 & Hc2).
  destruct (write_patch_patched offsets t2 r2 d2 a1 p1 s Hb1 Hasc)
    as (other & Hw21 & Hc21).
  { rewrite Hc2. by apply fits_patched. }
  exists one, other. cbn [for_ apply_entry].
  rewrite (bind_Ok _ _ _ _ _ Hw1), (bind_Ok _ _ _ _ _ Hw2). cbv beta.
  rewrite (bind_Ok _ _ _ _ _ Hw12), (bind_Ok _ _ _ _ _ Hw21).
  repeat split. rewrite Hc12, Hc21, Hc1, Hc2.
  revert Hfit1 Hfit2. unfold fits, patched, contents, len in *.
  destruct (Z.ltb_spec a1 (get_rodata_offset offsets));
    [|destruct (Z.ltb_spec a1 (get_data_offset offsets))];
    (destruct (Z.ltb_spec a2 (get_rodata_offset offsets));
     [|destruct (Z.ltb_spec a2 (get_data_offset offsets))]);
    intros Hfit1 Hfit2; try done; try lia;
    rewrite overwrite_comm; try done; lia.
Qed.
End InBounds.

Lemma last_write_wins_witness :
  exists both second,
    for_ [Patch 1 [9]; Patch 1 [7; 8]]
      (apply_entry (fs := checked_fs) Example.handler Example.offsets)
      (BytesIO_new Example.text, BytesIO_new Example.rodata, BytesIO_new Example.data)
      Example.start = (Example.start, Ok both) /\
    for_ [Patch 1 [7; 8]]
      (apply_entry (fs := checked_fs) Example.handler Example.offsets)
      (BytesIO_new Example.text, BytesIO_new Example.rodata, BytesIO_new Example.data)
      Example.start = (Example.start, Ok second) /\
    contents both = contents second.
Proof.
  apply (last_write_wins (fs := checked_fs) (lawful := checked_fs_lawful));
    vm_compute; first [reflexivity | discriminate | (split; discriminate)].
Defined.

Lemma disjoint_patches_commute_witness :
  exists one other,
    for_ [Patch 1 [9]; Patch 101 [7; 8]]
      (apply_entry (fs := checked_fs) Example.handler Example.offsets)
      (BytesIO_new Example.text, BytesIO_new Example.rodata, BytesIO_new Example.data)
      Example.start = (Example.start, Ok one) /\
    for_ [Patch 101 [7; 8]; Patch 1 [9]]
      (apply_entry (fs := checked_fs) Example.handler Example.offsets)
      (BytesIO_new Example.text, BytesIO_new Example.rodata, BytesIO_new Example.data)
      Example.start = (Example.start, Ok other) /\
    contents one = contents other.
Proof.
  apply (disjoint_patches_commute (fs := checked_fs) (lawful := checked_fs_lawful));
    vm_compute;
    first [reflexivity | discriminate | (split; discriminate) | (left; discriminate)].
Defined.
